(** * Ratio finder: the approximation search of [approximate_top5]

    A shallow embedding of the core of
    [ratio-finder-python-by-Rxinns.py]: the search over denominators, the
    ranking of the candidates, the limit-mode fallback, the single-digit
    preference and the caller-side shortcut for [1:n] ratios.

    Python integers are unbounded, so they are [Z].  Python floats are IEEE
    754 binary64 values; they are modelled bit-exactly with the standard
    library's [spec_float] at precision 53 and maximal exponent 1024.
    Exceptions are modelled with an error monad. *)

From Stdlib Require Import ZArith List Bool Lia String.
From Stdlib Require Import Sorting.Permutation Sorting.Sorted.
From Stdlib Require Import Floats.SpecFloat.
From Stdlib Require Import Ascii.
From Stdlib Require DecimalString DecimalN DecimalZ DecimalFacts.
Import ListNotations.
Open Scope Z_scope.

(** ** Python values: exceptions, floats, ranges *)

Module Py.

Inductive exn : Type :=
| ZeroDivisionError
| OverflowError
| ValueError
| TypeError
| IndexError.

Inductive result (A : Type) : Type :=
| Ok (a : A)
| Raise (e : exn).

Arguments Ok {A} a.
Arguments Raise {A} e.

Definition bind {A B : Type} (c : result A) (k : A -> result B) : result B :=
  match c with
  | Ok a => k a
  | Raise e => Raise e
  end.

Notation "x <- c ;; k" := (bind c (fun x => k))
  (at level 61, c at next level, right associativity).
Notation "' p <- c ;; k" := (bind c (fun x => let 'p := x in k))
  (at level 61, p pattern, c at next level, right associativity).

(** ** Floats: IEEE 754 binary64 *)

Definition prec : Z := 53.
Definition emax : Z := 1024.

Abbreviation float := spec_float.

(** Rounding to nearest, ties to even, of [m * 2^e] located by [l]. *)
Definition round_float (s : bool) (m e : Z) (l : location) : float :=
  binary_round_aux prec emax s m e l.

(** [a / b] on two ints (CPython's [long_true_divide]): the exact quotient,
    correctly rounded; [ZeroDivisionError] on a zero divisor and
    [OverflowError] when the rounded quotient is not finite. *)
Definition int_truediv (a b : Z) : result float :=
  if b =? 0 then Raise ZeroDivisionError
  else if a =? 0 then Ok (S754_zero (b <? 0))
  else
    let '(q, e, l) := SFdiv_core_binary prec emax (Z.abs a) 0 (Z.abs b) 0 in
    match round_float (xorb (a <? 0) (b <? 0)) q e l with
    | S754_infinity _ => Raise OverflowError
    | f => Ok f
    end.

(** [float(n)] for an int [n], as done implicitly in [x * n]. *)
Definition float_of_int (n : Z) : result float :=
  match binary_normalize prec emax n 0 false with
  | S754_infinity _ => Raise OverflowError
  | f => Ok f
  end.

(** [x * n] for a float [x] and an int [n]. *)
Definition float_mul_int (x : float) (n : Z) : result float :=
  y <- float_of_int n ;;
  Ok (SFmul prec emax x y).

Definition float_sub (x y : float) : float := SFsub prec emax x y.
Definition float_abs (x : float) : float := SFabs x.
Definition float_lt (x y : float) : bool := SFltb x y.

(** [m / 2^k] rounded to the nearest integer, ties to even ([0 < k]). *)
Definition round_half_even (m k : Z) : Z :=
  let q := m / 2 ^ k in
  let r := m mod 2 ^ k in
  let h := 2 ^ (k - 1) in
  if r <? h then q
  else if h <? r then q + 1
  else if Z.even q then q else q + 1.

(** [round(x)] with one argument: the nearest int, ties to even. *)
Definition py_round (x : float) : result Z :=
  match x with
  | S754_nan => Raise ValueError
  | S754_infinity _ => Raise OverflowError
  | S754_zero _ => Ok 0
  | S754_finite s m e =>
      let n := if 0 <=? e then Z.shiftl (Zpos m) e
               else round_half_even (Zpos m) (- e) in
      Ok (if s then - n else n)
  end.

(** [range(lo, hi)] *)
Definition py_range (lo hi : Z) : list Z :=
  map (fun i => lo + Z.of_nat i) (seq 0 (Z.to_nat (hi - lo))).

End Py.

Import Py.

(** ** Candidates and modes *)

(** The tuple [(num, den, err)]. *)
Record candidate : Type := mkCand { num : Z; den : Z; err : float }.

(** The first component of the pair returned by [approximate_top5]: [None],
    one of the strings ["limit_small"] and ["limit_large"], or the best
    single-digit candidate. *)
Inductive mode : Type :=
| ModeNone
| ModeStr (s : string)
| ModeCand (c : candidate).

(** [l.sort(key=lambda x: x[2])]: a stable sort by error.  The keys are
    compared with [<]; on keys that are not NaN the result of a stable sort
    is unique, and insertion computes it. *)
Fixpoint insert_by_err (x : candidate) (l : list candidate) : list candidate :=
  match l with
  | [] => [x]
  | y :: l' =>
      if float_lt (err y) (err x) then y :: insert_by_err x l'
      else x :: l
  end.

Definition sort_by_err (l : list candidate) : list candidate :=
  fold_right insert_by_err [] l.

Definition single_digit (c : candidate) : bool :=
  (1 <=? num c) && (num c <=? 9) && (1 <=? den c) && (den c <=? 9).

(** What a caller shows for a pair of positive ints:
    - [FixedRatio n d t]: the fixed lines of the [1:n] shortcut, the ratio
      [n:d] as the only result, the error text [t] and the fixed message;
    - [LimitResult c]: the single candidate of a limit mode, with the warning;
    - [RankedResults h top]: the highlighted single-digit candidate, if any,
      then the numbered candidates. *)
Inductive display : Type :=
| FixedRatio (n d : Z) (error_text : string)
| LimitResult (c : candidate)
| RankedResults (highlight : option candidate) (top : list candidate).

(** The shortcut prints the error as the fixed text [=0]. *)
Definition exact_error_text : string := "=0".

Section Approximator.

(** The two configuration values, after the start-up validation. *)
Variable MAX_DENOMINATOR : Z.
Variable SINGLE_DIGIT_THRESHOLD : float.

(** One iteration of the search loop (lines 141-153) on the pair of lists
    [(candidates, single_digit_candidates)]; [Ok st] unchanged is
    [continue]. *)
Definition search_step (target : float)
    (st : list candidate * list candidate) (d : Z)
  : result (list candidate * list candidate) :=
  let '(candidates, single_digit_candidates) := st in
  p <- float_mul_int target d ;;
  n <- py_round p ;;
  if n =? 0 then Ok st
  else if negb (Z.gcd n d =? 1) then Ok st
  else
    q <- int_truediv n d ;;
    let c := mkCand n d (float_abs (float_sub q target)) in
    Ok (candidates ++ [c],
        if single_digit c then single_digit_candidates ++ [c]
        else single_digit_candidates).

Fixpoint search_from (target : float)
    (st : list candidate * list candidate) (dens : list Z)
  : result (list candidate * list candidate) :=
  match dens with
  | [] => Ok st
  | d :: dens' =>
      st' <- search_step target st d ;;
      search_from target st' dens'
  end.

Definition search_loop (target : float)
  : result (list candidate * list candidate) :=
  search_from target ([], []) (py_range 1 (MAX_DENOMINATOR + 1)).

(** The two branches of the limit mode (lines 156-166). *)
Definition limit_small (a b : Z) (target : float)
  : result (mode * list candidate) :=
  q <- int_truediv b a ;;
  r <- py_round q ;;
  let extreme_den := Z.max 1 r in
  i <- int_truediv 1 extreme_den ;;
  let extreme_err := float_abs (float_sub i target) in
  Ok (ModeStr "limit_small", [mkCand 1 extreme_den extreme_err]).

Definition limit_large (a b : Z) (target : float)
  : result (mode * list candidate) :=
  q <- int_truediv a b ;;
  r <- py_round q ;;
  let extreme_num := Z.max 1 r in
  v <- int_truediv extreme_num 1 ;;
  let extreme_err := float_abs (float_sub v target) in
  Ok (ModeStr "limit_large", [mkCand extreme_num 1 extreme_err]).

Definition same_pair (x y : candidate) : bool :=
  (num x =? num y) && (den x =? den y).

(** The part of [approximate_top5] after the limit-mode test
    (lines 168-189): both lists are sorted, and the best single-digit
    candidate is returned as mode when it is below the threshold and is not
    the global best. *)
Definition rank (candidates single_digit_candidates : list candidate)
  : mode * list candidate :=
  let candidates := sort_by_err candidates in
  match sort_by_err single_digit_candidates with
  | [] => (ModeNone, firstn 5 candidates)
  | best_single_digit :: _ =>
      if float_lt (err best_single_digit) SINGLE_DIGIT_THRESHOLD then
        let is_global_best :=
          match candidates with
          | [] => false
          | c0 :: _ => same_pair best_single_digit c0
          end in
        if negb is_global_best then
          (ModeCand best_single_digit, firstn 5 candidates)
        else (ModeNone, firstn 5 candidates)
      else (ModeNone, firstn 5 candidates)
  end.

(** [approximate_top5(a, b)] (lines 134-189). *)
Definition approximate_top5 (a b : Z) : result (mode * list candidate) :=
  target <- int_truediv a b ;;
  ' (candidates, single_digit_candidates) <- search_loop target ;;
  match candidates with
  | [] =>
      if a <? b then limit_small a b target
      else limit_large a b target
  | _ :: _ => Ok (rank candidates single_digit_candidates)
  end.

(** *** The callers

    [run_cli_mode] and [App.calc] treat a validated pair the same way:
    they call [approximate_top5], then test the [1:n] shortcut, then show
    the result according to its mode. *)

(** [(a == 1 and b > MAX_DENOMINATOR) or (b == 1 and a > MAX_DENOMINATOR)] *)
Definition shortcut (a b : Z) : bool :=
  ((a =? 1) && (MAX_DENOMINATOR <? b)) ||
  ((b =? 1) && (MAX_DENOMINATOR <? a)).

Definition present (a b : Z) : result display :=
  ' (mode, top5) <- approximate_top5 a b ;;
  if shortcut a b then
    Ok (if a =? 1 then FixedRatio 1 b exact_error_text
        else FixedRatio a 1 exact_error_text)
  else
    match mode with
    | ModeStr s =>
        if String.eqb s "limit_small" || String.eqb s "limit_large" then
          match top5 with
          | c :: _ => Ok (LimitResult c)
          | [] => Raise IndexError
          end
        else if String.eqb s "" then Ok (RankedResults None (firstn 5 top5))
        else if (String.length s =? 3)%nat then Raise TypeError
        else Raise ValueError
    | ModeCand c => Ok (RankedResults (Some c) (firstn 5 top5))
    | ModeNone => Ok (RankedResults None (firstn 5 top5))
    end.

End Approximator.

(** The literal [0.01]: the double nearest to 1/100. *)
Definition default_THRESHOLD : float :=
  Eval vm_compute in
    match int_truediv 1 100 with Ok f => f | Raise _ => S754_nan end.

(** * Vocabulary of the properties *)

(** ** Classes of floats *)

Definition is_nan (f : float) : bool :=
  match f with S754_nan => true | _ => false end.

Definition is_finite (f : float) : bool :=
  match f with S754_zero _ | S754_finite _ _ _ => true | _ => false end.

Definition sign_bit (f : float) : bool :=
  match f with
  | S754_zero s | S754_infinity s | S754_finite s _ _ => s
  | S754_nan => false
  end.

(** Finite with a clear sign bit: [+0.0] or a positive finite double. *)
Definition finite_pos (f : float) : bool :=
  is_finite f && negb (sign_bit f).

(** An absolute value that is not a NaN: [+0.0], a positive finite double
    or [+inf]. *)
Definition nonneg (f : float) : bool := negb (is_nan f) && negb (sign_bit f).

Definition float_eq (x y : float) : bool := SFeqb x y.

(** ** The rounded quotient of two positive ints *)

Definition div_exp (a b : Z) : Z :=
  Z.min (fexp prec emax (Zdigits2 a - Zdigits2 b)) 0.

Definition div_mant (a b : Z) : Z := Z.shiftl a (- div_exp a b) / b.

(** ** Magnitudes *)

(** A float that is finite, of magnitude below [2 ^ K] and of exponent at
    most [E]. *)
Definition fits (K E : Z) (f : float) : Prop :=
  match f with
  | S754_zero _ => True
  | S754_finite _ m e => Zdigits2 (Z.pos m) + e <= K /\ e <= E
  | _ => False
  end.

(** A finite positive float [m * 2^e] with [1 <= m * 2^e]. *)
Definition ge_one (f : float) : Prop :=
  match f with
  | S754_finite false m e => 2 ^ (- e) <= Z.pos m
  | _ => False
  end.

(** ** Candidates and their ranking *)

(** What the loop records for a denominator: a reduced fraction with a
    positive numerator, and the distance of its quotient to the target. *)
Definition generated (target : float) (c : candidate) : Prop :=
  0 < num c /\ 0 < den c /\ Z.gcd (num c) (den c) = 1 /\
  (exists q, int_truediv (num c) (den c) = Ok q /\
             err c = float_abs (float_sub q target)) /\
  nonneg (err c) = true.

Definition err_nonneg (c : candidate) : Prop := nonneg (err c) = true.

(** [x] has an error no larger than [y]'s. *)
Definition err_le (x y : candidate) : Prop :=
  float_lt (err y) (err x) = false.

(** [x] is ranked before [y]: a smaller error, or an equal error and a
    smaller denominator. *)
Definition ranked_before (x y : candidate) : Prop :=
  float_lt (err x) (err y) = true \/
  (float_eq (err x) (err y) = true /\ den x < den y).

(** The best of a list: it is ranked before every other element. *)
Definition best_of (l : list candidate) (x : candidate) : Prop :=
  In x l /\ forall c, In c l -> c = x \/ ranked_before x c.

(** ** Modes *)

(** The candidate shown ahead of the list, if the mode carries one. *)
Definition highlight_of (m : mode) : option candidate :=
  match m with
  | ModeCand c => Some c
  | _ => None
  end.

(** The four tags of the specification, read off the returned value:
    [None] is [normal], a candidate is [single_digit_preferred]. *)
Inductive mode_tag : Type :=
| TagNormal
| TagSingleDigitPreferred
| TagLimitSmall
| TagLimitLarge.

Definition tag_of_mode (m : mode) : option mode_tag :=
  match m with
  | ModeNone => Some TagNormal
  | ModeCand _ => Some TagSingleDigitPreferred
  | ModeStr s =>
      if String.eqb s "limit_small" then Some TagLimitSmall
      else if String.eqb s "limit_large" then Some TagLimitLarge
      else None
  end.

(** ** Some concrete runs *)

(** The list of a returned result. *)
Definition returned_list (r : result (mode * list candidate))
  : list candidate :=
  match r with
  | Ok (_, l) => l
  | Raise _ => []
  end.

(** The state of a completed search. *)
Definition completed (r : result (list candidate * list candidate))
  : list candidate * list candidate :=
  match r with
  | Ok st => st
  | Raise _ => ([], [])
  end.

(** [approximate_top5(16, 9)] under the default configuration returns
    [16:9], [105:59], [103:58], [89:50] and [87:49]. *)
Definition top5_16_9 : list candidate :=
  Eval vm_compute in
    returned_list (approximate_top5 64 default_THRESHOLD 16 9).

(** The double nearest to 43/64 (it is exact), and the two lists of the
    search for it under the default configuration: [2:3] is the best
    single-digit candidate, [43:64] the global best. *)
Definition target_43_64 : float :=
  Eval vm_compute in
    match int_truediv 43 64 with Ok f => f | Raise _ => S754_nan end.

Definition cands_43_64 : list candidate :=
  Eval vm_compute in fst (completed (search_loop 64 target_43_64)).

Definition singles_43_64 : list candidate :=
  Eval vm_compute in snd (completed (search_loop 64 target_43_64)).

(** The double nearest to 1/1000. *)
Definition target_1_1000 : float :=
  Eval vm_compute in
    match int_truediv 1 1000 with Ok f => f | Raise _ => S754_nan end.

(** * The rest of the program *)

(** ** The start-up validation of the configuration (lines 15-54) *)

(** The objects a configuration variable may be bound to by the user.
    [PyNone] stands for [None] and for any other object that is neither a
    number nor a string: [isinstance(x, int)] is false and [float(x)]
    raises [TypeError]. *)
Inductive pyobj : Type :=
| PyInt (n : Z)
| PyBool (b : bool)
| PyFloat (x : float)
| PyStr (s : string)
| PyNone.

(** The entries of [_config_warnings]: the two fixed messages, which name
    the variable and the default it was reset to. *)
Inductive warning : Type :=
| ResetMaxDenominator
| ResetThreshold.

(** The configuration after validation, with the warnings collected. *)
Record config : Type := mkConfig {
  max_denominator : Z;
  single_digit_threshold : float;
  config_warnings : list warning
}.

Definition default_MAX_DENOMINATOR : Z := 64.

(** The float [1.0]. *)
Definition float_one : float := S754_finite false 4503599627370496 (-52).

Definition float_le (x y : float) : bool := SFleb x y.

Section Configuration.

(** [float(s)] on a string: [None] is a [ValueError]. *)
Variable float_of_str : string -> option float.

(** [float(o)] *)
Definition py_float (o : pyobj) : result float :=
  match o with
  | PyInt n => float_of_int n
  | PyBool b => Ok (if b then float_one else S754_zero false)
  | PyFloat x => Ok x
  | PyStr s =>
      match float_of_str s with
      | Some x => Ok x
      | None => Raise ValueError
      end
  | PyNone => Raise TypeError
  end.

(** Lines 37-42.  A [bool] is an [int]: [True] is kept and counts as 1. *)
Definition validate_max_denominator (o : pyobj) : Z * list warning :=
  match o with
  | PyInt n =>
      if n <? 1 then (default_MAX_DENOMINATOR, [ResetMaxDenominator])
      else (n, [])
  | PyBool b =>
      if (if b then 1 else 0) <? 1
      then (default_MAX_DENOMINATOR, [ResetMaxDenominator])
      else (1, [])
  | _ => (default_MAX_DENOMINATOR, [ResetMaxDenominator])
  end.

(** Lines 45-54.  Only [ValueError] and [TypeError] are caught. *)
Definition validate_threshold (o : pyobj) : result (float * list warning) :=
  match py_float o with
  | Ok v =>
      if negb (float_le (S754_zero false) v && float_le v float_one)
      then Ok (default_THRESHOLD, [ResetThreshold])
      else Ok (v, [])
  | Raise ValueError | Raise TypeError =>
      Ok (default_THRESHOLD, [ResetThreshold])
  | Raise e => Raise e
  end.

Definition validate_config (m t : pyobj) : result config :=
  let '(M, w1) := validate_max_denominator m in
  ' (T, w2) <- validate_threshold t ;;
  Ok (mkConfig M T (w1 ++ w2)).

End Configuration.

(** A [float(s)] that rejects every string, to run examples. *)
Definition no_float_of_str (s : string) : option float := None.

(** ** [format_error] (lines 125-132) *)

(** The literals [1e-16] and [1e-8]: the doubles nearest to [10^-16] and
    to [10^-8]. *)
Definition lit_1e_16 : float :=
  Eval vm_compute in
    match int_truediv 1 (10 ^ 16) with Ok f => f | Raise _ => S754_nan end.

Definition lit_1e_8 : float :=
  Eval vm_compute in
    match int_truediv 1 (10 ^ 8) with Ok f => f | Raise _ => S754_nan end.

(** [str(n)] for an int. *)
Definition str_of_int (n : Z) : string :=
  DecimalString.NilZero.string_of_int (Z.to_int n).

Definition digit_char (d : Z) : ascii := ascii_of_nat (48 + Z.to_nat d).

(** The last [k] decimal digits of [n], most significant first. *)
Fixpoint fixed_digits (k : nat) (n : Z) : string :=
  match k with
  | O => EmptyString
  | S k' =>
      String (digit_char (n / 10 ^ Z.of_nat k' mod 10)) (fixed_digits k' n)
  end.

(** [m * 2^e * 10^8] rounded to the nearest integer, ties to even. *)
Definition scaled8 (m : positive) (e : Z) : Z :=
  if 0 <=? e then Z.pos m * 2 ^ e * 10 ^ 8
  else round_half_even (Z.pos m * 10 ^ 8) (- e).

(** [f"{N / 10^8:.8f}"] for a count [N] of units of [10^-8]. *)
Definition fixed8 (N : Z) : string :=
  str_of_int (N / 10 ^ 8) ++ "." ++ fixed_digits 8 N.

(** [f"{x:.8f}"]: the decimal expansion of [x] correctly rounded to 8
    digits after the point. *)
Definition format_fixed8 (x : float) : string :=
  match x with
  | S754_nan => "nan"
  | S754_infinity s => if s then "-inf" else "inf"
  | S754_zero s => (if s then "-" else "") ++ fixed8 0
  | S754_finite s m e => (if s then "-" else "") ++ fixed8 (scaled8 m e)
  end.

(** The approx sign of the third tier (U+2248, three bytes in UTF-8). *)
Definition approx_sign : string :=
  String (ascii_of_nat 226) (String (ascii_of_nat 137)
    (String (ascii_of_nat 136) EmptyString)).

Definition format_error (err : float) : string :=
  if float_lt err lit_1e_16 then "=0"
  else if float_lt err lit_1e_8 then "<0.00000001"
  else approx_sign ++ format_fixed8 err.

(** ** Vocabulary of the further properties *)

(** A valid binary64 value: the mantissa and the exponent are the
    canonical ones, and the exponent is in range. *)
Definition valid (f : float) : bool := valid_binary prec emax f.

(** A candidate that a caller prints: one of the list, or the highlighted
    one. *)
Definition shown (m : mode) (l : list candidate) (c : candidate) : Prop :=
  In c l \/ m = ModeCand c.

(** Two candidates with different values [num/den]. *)
Definition distinct_ratio (x y : candidate) : Prop :=
  num x * den y <> num y * den x.

(** [round(target * d)] is [n]. *)
Definition rounds_to (target : float) (d n : Z) : Prop :=
  exists p, float_mul_int target d = Ok p /\ py_round p = Ok n.

(** The double of a positive int [q] below [2^53]: [q] itself, held in a
    53-bit mantissa. *)
Definition float_of_small (q : Z) : float :=
  S754_finite false (Z.to_pos (q * 2 ^ (53 - Zdigits2 q))) (Zdigits2 q - 53).

(** [approximate_top5(6, 2)] under the default configuration. *)
Definition top5_6_2 : list candidate :=
  Eval vm_compute in
    returned_list (approximate_top5 64 default_THRESHOLD 6 2).

(** * Known values

    The model against doubles and results known from Python. *)

(** [1 / 3] is [0x3FD5555555555555] and [1 / 10] is
    [0x3FB999999999999A]. *)
Example int_truediv_1_3 :
  int_truediv 1 3 = Ok (S754_finite false 6004799503160661 (-54)).
Proof. vm_compute. reflexivity. Qed.

Example int_truediv_1_10 :
  int_truediv 1 10 = Ok (S754_finite false 7205759403792794 (-56)).
Proof. vm_compute. reflexivity. Qed.

(** [round(0.5) = 0], [round(1.5) = 2] and [round(2.5) = 2]. *)
Example py_round_halves :
  (x <- int_truediv 1 2 ;; py_round x) = Ok 0 /\
  (x <- int_truediv 3 2 ;; py_round x) = Ok 2 /\
  (x <- int_truediv 5 2 ;; py_round x) = Ok 2.
Proof. repeat split; vm_compute; reflexivity. Qed.

(** [approximate_top5(16, 9)] ranks [16:9] first, then [105:59]. *)
Example approximate_top5_16_9 :
  map (fun c => (num c, den c)) top5_16_9 =
  [(16, 9); (105, 59); (103, 58); (89, 50); (87, 49)].
Proof. reflexivity. Qed.

(** [approximate_top5(43, 64)] prefers the single-digit [2:3]. *)
Example approximate_top5_43_64 :
  exists e l,
    approximate_top5 64 default_THRESHOLD 43 64 =
      Ok (ModeCand (mkCand 2 3 e), l) /\
    map (fun c => (num c, den c)) l =
      [(43, 64); (41, 61); (39, 58); (37, 55); (35, 52)].
Proof. eexists _, _. split; vm_compute; reflexivity. Qed.

(** [format_error] on [0.0], [1e-9], [0.5] and [1/3]. *)
Example format_error_known :
  format_error (S754_zero false) = "=0"%string /\
  (x <- int_truediv 1 (10 ^ 9) ;; Ok (format_error x)) =
    Ok "<0.00000001"%string /\
  (x <- int_truediv 1 2 ;; Ok (format_error x)) =
    Ok (approx_sign ++ "0.50000000")%string /\
  (x <- int_truediv 1 3 ;; Ok (format_error x)) =
    Ok (approx_sign ++ "0.33333333")%string.
Proof. repeat split; vm_compute; reflexivity. Qed.

(** The default configuration passes the validation unchanged; a
    denominator bound of 0 and a threshold of 1.5 are both reset. *)
Example validate_config_known :
  validate_config no_float_of_str (PyInt 64) (PyFloat default_THRESHOLD) =
    Ok (mkConfig 64 default_THRESHOLD []) /\
  (t <- int_truediv 3 2 ;;
   validate_config no_float_of_str (PyInt 0) (PyFloat t)) =
    Ok (mkConfig 64 default_THRESHOLD [ResetMaxDenominator; ResetThreshold]).
Proof. split; vm_compute; reflexivity. Qed.

(** * Floats: shape of the results

    Rounding a non-negative mantissa never produces a NaN, and keeps the
    requested sign. *)

Module FloatFacts.

Lemma shr_1_m mrs : 0 <= shr_m mrs -> shr_m (shr_1 mrs) = shr_m mrs / 2.
Proof.
  destruct mrs as [m r s]; simpl; intros Hm.
  destruct m as [|p|p]; [reflexivity| |lia].
  destruct p as [p|p|]; simpl.
  - rewrite Pos2Z.inj_xI.
    apply Z.div_unique with (r := 1); lia.
  - rewrite Pos2Z.inj_xO.
    apply Z.div_unique with (r := 0); lia.
  - reflexivity.
Qed.

Lemma pow2_xO p : 2 ^ Zpos p~0 = 2 ^ Zpos p * 2 ^ Zpos p.
Proof. rewrite <- Z.pow_add_r by lia. f_equal. lia. Qed.

Lemma pow2_xI p : 2 ^ Zpos p~1 = 2 * (2 ^ Zpos p * 2 ^ Zpos p).
Proof.
  rewrite <- Z.pow_add_r, <- Z.pow_succ_r by lia. f_equal. lia.
Qed.

Lemma shr_iter_m p : forall mrs,
  0 <= shr_m mrs ->
  shr_m (iter_pos shr_1 p mrs) = shr_m mrs / 2 ^ Zpos p.
Proof.
  induction p as [p IH|p IH|]; intros mrs Hm; simpl iter_pos.
  - assert (H1 : 0 <= shr_m (shr_1 mrs)).
    { rewrite shr_1_m by assumption. apply Z.div_pos; lia. }
    assert (H2 : 0 <= shr_m (iter_pos shr_1 p (shr_1 mrs))).
    { rewrite IH by assumption. apply Z.div_pos; lia. }
    rewrite IH by assumption. rewrite IH by assumption.
    rewrite shr_1_m by assumption.
    rewrite !Z.div_div by lia.
    f_equal. rewrite pow2_xI. ring.
  - assert (H2 : 0 <= shr_m (iter_pos shr_1 p mrs)).
    { rewrite IH by assumption. apply Z.div_pos; lia. }
    rewrite IH by assumption. rewrite IH by assumption.
    rewrite !Z.div_div by lia.
    f_equal. rewrite pow2_xO. ring.
  - rewrite shr_1_m by assumption. reflexivity.
Qed.

Lemma shr_record_of_loc_m m l : shr_m (shr_record_of_loc m l) = m.
Proof. destruct l as [|[| |]]; reflexivity. Qed.

(** The mantissa and the exponent after [shr_fexp]. *)
Lemma shr_fexp_spec m e l :
  0 <= m ->
  let n := fexp prec emax (Zdigits2 m + e) - e in
  let '(mrs, e') := shr_fexp prec emax m e l in
  (0 < n -> shr_m mrs = m / 2 ^ n /\ e' = e + n) /\
  (n <= 0 -> shr_m mrs = m /\ e' = e).
Proof.
  intros Hm n. unfold shr_fexp. fold n.
  destruct n as [|p|p]; simpl; rewrite ?shr_record_of_loc_m;
    try (split; intros; [lia|auto]).
  split; [intros _|lia].
  split; [|reflexivity].
  rewrite shr_iter_m; rewrite shr_record_of_loc_m; auto.
Qed.

Lemma round_nearest_even_bounds m l :
  m <= round_nearest_even m l <= m + 1.
Proof.
  destruct l as [|[| |]]; simpl; try lia.
  destruct (Z.even m); lia.
Qed.

Lemma round_float_shape s m e l :
  0 <= m ->
  round_float s m e l = S754_zero s \/
  (exists m' e', round_float s m e l = S754_finite s m' e') \/
  round_float s m e l = S754_infinity s.
Proof.
  intros Hm. unfold round_float, binary_round_aux.
  pose proof (shr_fexp_spec m e l Hm) as H1. simpl in H1.
  destruct (shr_fexp prec emax m e l) as [mrs1 e1].
  assert (Hm1 : 0 <= shr_m mrs1).
  { destruct H1 as [Ha Hb].
    destruct (Z_lt_le_dec 0 (fexp prec emax (Zdigits2 m + e) - e)) as [Hn|Hn].
    - destruct (Ha Hn) as [-> _]. apply Z.div_pos; lia.
    - destruct (Hb Hn) as [-> _]. assumption. }
  set (m1 := round_nearest_even (shr_m mrs1) (loc_of_shr_record mrs1)).
  assert (Hm1' : 0 <= m1).
  { pose proof (round_nearest_even_bounds (shr_m mrs1)
                  (loc_of_shr_record mrs1)).
    unfold m1. lia. }
  pose proof (shr_fexp_spec m1 e1 loc_Exact Hm1') as H2. simpl in H2.
  destruct (shr_fexp prec emax m1 e1 loc_Exact) as [mrs2 e2].
  assert (Hm2 : 0 <= shr_m mrs2).
  { destruct H2 as [Ha Hb].
    destruct (Z_lt_le_dec 0 (fexp prec emax (Zdigits2 m1 + e1) - e1))
      as [Hn|Hn].
    - destruct (Ha Hn) as [-> _]. apply Z.div_pos; lia.
    - destruct (Hb Hn) as [-> _]. assumption. }
  destruct (shr_m mrs2) as [|p|p]; [left; reflexivity| |lia].
  right. destruct (e2 <=? emax - prec); [left; eauto|right; reflexivity].
Qed.

(** *** Division of two positive ints *)

Lemma SFdiv_core_int a b :
  0 < a -> 0 < b ->
  SFdiv_core_binary prec emax a 0 b 0 =
  (div_mant a b, div_exp a b,
   new_location b (Z.shiftl a (- div_exp a b) mod b)).
Proof.
  intros Ha Hb. unfold SFdiv_core_binary, div_mant.
  rewrite !Z.add_0_r. change (0 - 0) with 0. fold (div_exp a b).
  assert (He : div_exp a b <= 0) by (unfold div_exp; lia).
  replace (0 - div_exp a b) with (- div_exp a b) by lia.
  assert (Hm : match - div_exp a b with
               | 0 => a
               | Z.pos _ => Z.shiftl a (- div_exp a b)
               | Z.neg _ => 0
               end = Z.shiftl a (- div_exp a b)).
  { destruct (- div_exp a b) eqn:E; try reflexivity; lia. }
  rewrite Hm. unfold Z.div, Z.modulo.
  destruct (Z.div_eucl (Z.shiftl a (- div_exp a b)) b); reflexivity.
Qed.

Lemma div_exp_nonpos a b : div_exp a b <= 0.
Proof. unfold div_exp; lia. Qed.

Lemma div_mant_nonneg a b : 0 < a -> 0 < b -> 0 <= div_mant a b.
Proof.
  intros Ha Hb. unfold div_mant. apply Z.div_pos; [|assumption].
  apply Z.shiftl_nonneg. lia.
Qed.

Lemma int_truediv_pos a b :
  0 < a -> 0 < b ->
  int_truediv a b =
  match round_float false (div_mant a b) (div_exp a b)
          (new_location b (Z.shiftl a (- div_exp a b) mod b)) with
  | S754_infinity _ => Raise OverflowError
  | f => Ok f
  end.
Proof.
  intros Ha Hb. unfold int_truediv.
  destruct (Z.eqb_spec b 0); [lia|].
  destruct (Z.eqb_spec a 0); [lia|].
  rewrite !Z.abs_eq by lia.
  rewrite SFdiv_core_int by assumption.
  destruct (Z.ltb_spec a 0); [lia|].
  destruct (Z.ltb_spec b 0); [lia|].
  reflexivity.
Qed.

Lemma int_truediv_finite_pos a b f :
  0 < a -> 0 < b -> int_truediv a b = Ok f -> finite_pos f = true.
Proof.
  intros Ha Hb. rewrite int_truediv_pos by assumption.
  destruct (round_float_shape false (div_mant a b) (div_exp a b)
              (new_location b (Z.shiftl a (- div_exp a b) mod b))
              (div_mant_nonneg a b Ha Hb)) as [E|[(m' & e' & E)|E]];
    rewrite E; intros H; inversion H; reflexivity.
Qed.

(** The only exception of a division by a non-zero int is an overflow. *)
Lemma int_truediv_raise a b e :
  b <> 0 -> int_truediv a b = Raise e -> e = OverflowError.
Proof.
  intros Hb. unfold int_truediv.
  destruct (Z.eqb_spec b 0); [contradiction|].
  destruct (a =? 0); [discriminate|].
  destruct (SFdiv_core_binary prec emax (Z.abs a) 0 (Z.abs b) 0) as [[q e'] l].
  destruct (round_float _ q e' l); intros H; inversion H; reflexivity.
Qed.

(** *** Conversion of a positive int *)

Lemma float_of_int_shape n f :
  0 <= n -> float_of_int n = Ok f -> finite_pos f = true.
Proof.
  intros Hn. unfold float_of_int, binary_normalize.
  destruct n as [|p|p]; [intros H; inversion H; reflexivity| |lia].
  unfold binary_round.
  destruct (shl_align p 0 (fexp prec emax (Z.pos (digits2_pos p) + 0)))
    as [mz ez].
  fold (round_float false (Z.pos mz) ez loc_Exact).
  destruct (round_float_shape false (Z.pos mz) ez loc_Exact)
    as [E|[(m' & e' & E)|E]]; [lia| | |];
    rewrite E; intros H; inversion H; reflexivity.
Qed.

Lemma float_of_int_raise n e :
  float_of_int n = Raise e -> e = OverflowError.
Proof.
  unfold float_of_int.
  destruct (binary_normalize prec emax n 0 false);
    intros H; inversion H; reflexivity.
Qed.

(** *** Products and differences of finite floats *)

Lemma SFmul_finite_pos x y :
  finite_pos x = true -> finite_pos y = true ->
  is_nan (SFmul prec emax x y) = false /\
  sign_bit (SFmul prec emax x y) = false.
Proof.
  destruct x as [[|]| | |[|] mx ex]; try discriminate;
  destruct y as [[|]| | |[|] my ey]; try discriminate;
  intros _ _; simpl; try (split; reflexivity).
  fold (round_float false (Z.pos (mx * my)) (ex + ey) loc_Exact).
  destruct (round_float_shape false (Z.pos (mx * my)) (ex + ey) loc_Exact)
    as [E|[(m' & e' & E)|E]]; [lia| | |]; rewrite E; split; reflexivity.
Qed.

Lemma binary_normalize_not_nan m e :
  is_nan (binary_normalize prec emax m e false) = false.
Proof.
  unfold binary_normalize, binary_round.
  destruct m as [|p|p]; [reflexivity| |].
  - destruct (shl_align p e _) as [mz ez].
    fold (round_float false (Z.pos mz) ez loc_Exact).
    destruct (round_float_shape false (Z.pos mz) ez loc_Exact)
      as [E|[(m' & e' & E)|E]]; [lia| | |]; rewrite E; reflexivity.
  - destruct (shl_align p e _) as [mz ez].
    fold (round_float true (Z.pos mz) ez loc_Exact).
    destruct (round_float_shape true (Z.pos mz) ez loc_Exact)
      as [E|[(m' & e' & E)|E]]; [lia| | |]; rewrite E; reflexivity.
Qed.

Lemma float_sub_not_nan x y :
  is_finite x = true -> is_finite y = true ->
  is_nan (float_sub x y) = false.
Proof.
  destruct x as [sx| | |sx mx ex]; try discriminate;
  destruct y as [sy| | |sy my ey]; try discriminate;
  intros _ _; unfold float_sub; simpl.
  - destruct sx, sy; reflexivity.
  - reflexivity.
  - reflexivity.
  - apply binary_normalize_not_nan.
Qed.

Lemma float_abs_nonneg x : is_nan x = false -> nonneg (float_abs x) = true.
Proof. destruct x; simpl; intros; auto; discriminate. Qed.

(** *** Rounding to an int *)

Lemma round_half_even_bounds m k :
  0 <= m -> m / 2 ^ k <= round_half_even m k <= m / 2 ^ k + 1.
Proof.
  intros Hm. unfold round_half_even.
  destruct (_ <? _); [lia|].
  destruct (_ <? _); [lia|].
  destruct (Z.even _); lia.
Qed.

Lemma py_round_nonneg x n :
  sign_bit x = false -> py_round x = Ok n -> 0 <= n.
Proof.
  destruct x as [s|s| |s m e]; simpl; intros Hs H; inversion H; subst; try lia.
  destruct (Z.leb_spec 0 e) as [He|He].
  - apply Z.shiftl_nonneg. lia.
  - pose proof (round_half_even_bounds (Z.pos m) (- e) ltac:(lia)).
    assert (0 <= Z.pos m / 2 ^ (- e)).
    { apply Z.div_pos; [lia|]. apply Z.pow_pos_nonneg; lia. }
    lia.
Qed.

Lemma py_round_ok x :
  is_finite x = true -> exists n, py_round x = Ok n.
Proof. destruct x; simpl; intros; try discriminate; eauto. Qed.

End FloatFacts.

Import FloatFacts.

(** * The search loop *)

Lemma float_mul_int_shape target d p :
  finite_pos target = true -> 0 < d ->
  float_mul_int target d = Ok p ->
  is_nan p = false /\ sign_bit p = false.
Proof.
  intros Ht Hd. unfold float_mul_int.
  destruct (float_of_int d) as [y|e] eqn:Ey; simpl; [|discriminate].
  intros H; inversion H; subst.
  apply SFmul_finite_pos; [assumption|].
  apply (float_of_int_shape d); [lia|assumption].
Qed.

Lemma finite_pos_finite f : finite_pos f = true -> is_finite f = true.
Proof. unfold finite_pos. destruct (is_finite f); auto. Qed.

Lemma search_step_spec target cs ss d cs' ss' :
  finite_pos target = true -> 0 < d ->
  search_step target (cs, ss) d = Ok (cs', ss') ->
  (cs' = cs /\ ss' = ss) \/
  (exists c, generated target c /\ den c = d /\
             cs' = cs ++ [c] /\
             ss' = ss ++ filter single_digit [c]).
Proof.
  intros Ht Hd. unfold search_step.
  destruct (float_mul_int target d) as [p|e] eqn:Ep; simpl; [|discriminate].
  destruct (float_mul_int_shape _ _ _ Ht Hd Ep) as [Hnan Hsign].
  destruct (py_round p) as [n|e] eqn:En; simpl; [|discriminate].
  pose proof (py_round_nonneg _ _ Hsign En) as Hn.
  destruct (Z.eqb_spec n 0) as [|Hn0].
  { intros H; inversion H; auto. }
  destruct (Z.eqb_spec (Z.gcd n d) 1) as [Hg|Hg]; simpl.
  2:{ intros H; inversion H; auto. }
  destruct (int_truediv n d) as [q|e] eqn:Eq; simpl; [|discriminate].
  intros H; inversion H; subst cs' ss'; clear H.
  right. exists (mkCand n d (float_abs (float_sub q target))).
  split; [|split; [reflexivity|split; [reflexivity|]]].
  - unfold generated; simpl.
    repeat split; try lia.
    + exists q; auto.
    + apply float_abs_nonneg, float_sub_not_nan.
      * apply finite_pos_finite.
        apply (int_truediv_finite_pos n d); auto; lia.
      * apply finite_pos_finite; assumption.
  - simpl. destruct (single_digit _); [reflexivity|].
    rewrite app_nil_r; reflexivity.
Qed.

(** The denominators recorded are, in order, some of the denominators
    visited. *)
Lemma search_from_spec target dens : forall cs ss cs' ss',
  finite_pos target = true ->
  Forall (fun d => 0 < d) dens ->
  StronglySorted Z.lt dens ->
  search_from target (cs, ss) dens = Ok (cs', ss') ->
  exists new,
    cs' = cs ++ new /\ ss' = ss ++ filter single_digit new /\
    Forall (generated target) new /\
    Forall (fun c => In (den c) dens) new /\
    StronglySorted Z.lt (map den new).
Proof.
  induction dens as [|d dens IH]; intros cs ss cs' ss' Ht Hpos Hsort;
    cbn [search_from].
  - intros H; inversion H; subst. exists []; simpl.
    rewrite !app_nil_r. repeat split; constructor.
  - destruct (search_step target (cs, ss) d) as [[cs1 ss1]|e] eqn:E1;
      cbn [bind]; [|discriminate].
    intros H2.
    inversion Hpos as [|? ? Hd Hpos']; subst.
    inversion Hsort as [|? ? Hsort' Hlt]; subst.
    destruct (IH _ _ _ _ Ht Hpos' Hsort' H2)
      as (new & -> & -> & Hgen & Hin & Hs).
    destruct (search_step_spec _ _ _ _ _ _ Ht Hd E1)
      as [[-> ->]|(c & Hc & Hdc & -> & ->)].
    + exists new. repeat split; auto.
      eapply Forall_impl; [|exact Hin]. simpl; auto.
    + exists (c :: new). rewrite <- !app_assoc. simpl.
      repeat split.
      * destruct (single_digit c); reflexivity.
      * constructor; assumption.
      * constructor; [left; auto|].
        eapply Forall_impl; [|exact Hin]. simpl; auto.
      * constructor; [assumption|].
        rewrite Forall_map. rewrite Forall_forall in Hin, Hlt |- *.
        intros x Hx. rewrite Hdc. apply Hlt, Hin, Hx.
Qed.

Lemma py_range_spec lo hi d : In d (py_range lo hi) <-> lo <= d < hi.
Proof.
  unfold py_range. rewrite in_map_iff. split.
  - intros (i & <- & Hi). apply in_seq in Hi. lia.
  - intros H. exists (Z.to_nat (d - lo)). split; [lia|].
    apply in_seq. lia.
Qed.

Lemma seq_shift_sorted lo n : forall s,
  StronglySorted Z.lt (map (fun i => lo + Z.of_nat i) (seq s n)).
Proof.
  induction n as [|n IH]; intros s; simpl; constructor; [apply IH|].
  rewrite Forall_map, Forall_forall. intros i Hi.
  apply in_seq in Hi. lia.
Qed.

Lemma py_range_sorted lo hi : StronglySorted Z.lt (py_range lo hi).
Proof. apply seq_shift_sorted. Qed.

Section LoopFacts.

Variable MAX_DENOMINATOR : Z.

(** The candidates of a completed search: reduced fractions with strictly
    increasing denominators in [1..MAX_DENOMINATOR]; the single-digit list
    holds those with both terms in [1..9], in the same order. *)
Lemma search_loop_spec target cs ss :
  finite_pos target = true ->
  search_loop MAX_DENOMINATOR target = Ok (cs, ss) ->
  ss = filter single_digit cs /\
  Forall (generated target) cs /\
  Forall (fun c => 1 <= den c <= MAX_DENOMINATOR) cs /\
  StronglySorted Z.lt (map den cs).
Proof.
  intros Ht H. unfold search_loop in H.
  apply search_from_spec in H; auto.
  - destruct H as (new & -> & -> & Hgen & Hin & Hs). simpl.
    repeat split; auto.
    eapply Forall_impl; [|exact Hin]. simpl.
    intros c Hc. apply py_range_spec in Hc. lia.
  - rewrite Forall_forall. intros d Hd. apply py_range_spec in Hd. lia.
  - apply py_range_sorted.
Qed.

End LoopFacts.

(** * The order on errors

    Errors are absolute values of differences of finite floats: they are
    never NaN and never negative, and [<] is a strict total order on them
    up to [==]. *)

Module ErrOrder.

Lemma nonneg_cases x :
  nonneg x = true ->
  x = S754_zero false \/ x = S754_infinity false \/
  exists m e, x = S754_finite false m e.
Proof.
  destruct x as [[|]|[|]| |[|] m e]; simpl; try discriminate; eauto.
Qed.

Ltac nonneg_destruct H :=
  let m := fresh "m" in
  let e := fresh "e" in
  apply nonneg_cases in H;
  destruct H as [H|[H|(m & e & H)]]; rewrite H; clear H.

Lemma float_lt_finite m1 e1 m2 e2 :
  float_lt (S754_finite false m1 e1) (S754_finite false m2 e2) = true <->
  e1 < e2 \/ (e1 = e2 /\ (m1 < m2)%positive).
Proof.
  unfold float_lt, SFltb, SFcompare.
  change (Pos.compare_cont Eq m1 m2) with (Pos.compare m1 m2).
  destruct (Z.compare_spec e1 e2); destruct (Pos.compare_spec m1 m2);
    split; intros; try discriminate; try lia; auto.
Qed.

Lemma float_eq_finite m1 e1 m2 e2 :
  float_eq (S754_finite false m1 e1) (S754_finite false m2 e2) = true <->
  e1 = e2 /\ m1 = m2.
Proof.
  unfold float_eq, SFeqb, SFcompare.
  change (Pos.compare_cont Eq m1 m2) with (Pos.compare m1 m2).
  destruct (Z.compare_spec e1 e2); destruct (Pos.compare_spec m1 m2);
    split; intros; try discriminate; try lia; auto.
Qed.

Lemma float_lt_false_finite m1 e1 m2 e2 :
  float_lt (S754_finite false m1 e1) (S754_finite false m2 e2) = false <->
  e2 < e1 \/ (e1 = e2 /\ (m2 <= m1)%positive).
Proof.
  pose proof (float_lt_finite m1 e1 m2 e2) as H.
  destruct (float_lt _ _); split; intros; try discriminate; try lia;
    reflexivity.
Qed.

Lemma float_lt_asym x y : float_lt x y = true -> float_lt y x = false.
Proof.
  destruct x as [[|]|[|]| |[|] m1 e1]; destruct y as [[|]|[|]| |[|] m2 e2];
    try discriminate; try reflexivity;
    unfold float_lt, SFltb, SFcompare;
    change (Pos.compare_cont Eq m1 m2) with (Pos.compare m1 m2);
    change (Pos.compare_cont Eq m2 m1) with (Pos.compare m2 m1);
    destruct (Z.compare_spec e1 e2); destruct (Z.compare_spec e2 e1);
    try lia; try discriminate; try reflexivity;
    destruct (Pos.compare_spec m1 m2); destruct (Pos.compare_spec m2 m1);
    try lia; try discriminate; reflexivity.
Qed.

Lemma float_trichotomy x y :
  nonneg x = true -> nonneg y = true ->
  float_lt x y = true \/ float_eq x y = true \/ float_lt y x = true.
Proof.
  intros Hx Hy. nonneg_destruct Hx; nonneg_destruct Hy; auto.
  rewrite !float_lt_finite, float_eq_finite. lia.
Qed.

(** [z < x <= y] gives [z < y]. *)
Lemma float_lt_le_trans z x y :
  nonneg x = true -> nonneg y = true -> nonneg z = true ->
  float_lt z x = true -> float_lt y x = false -> float_lt z y = true.
Proof.
  intros Hx Hy Hz.
  nonneg_destruct Hx; nonneg_destruct Hy; nonneg_destruct Hz;
    try discriminate; try reflexivity.
  rewrite !float_lt_finite, float_lt_false_finite. lia.
Qed.

Lemma float_eq_not_lt x y : float_eq x y = true -> float_lt x y = false.
Proof.
  unfold float_eq, float_lt, SFeqb, SFltb.
  destruct (SFcompare x y) as [[| |]|]; intros; try discriminate; reflexivity.
Qed.

Lemma float_lt_not_eq x y : float_lt x y = true -> float_eq x y = false.
Proof.
  unfold float_eq, float_lt, SFeqb, SFltb.
  destruct (SFcompare x y) as [[| |]|]; intros; try discriminate; reflexivity.
Qed.

Lemma float_eq_not_gt x y :
  nonneg x = true -> nonneg y = true ->
  float_eq x y = true -> float_lt y x = false.
Proof.
  intros Hx Hy. nonneg_destruct Hx; nonneg_destruct Hy;
    try discriminate; try reflexivity.
  rewrite float_eq_finite, float_lt_false_finite.
  intros [-> ->]. right; split; [reflexivity|apply Pos.le_refl].
Qed.

(** No error is below zero. *)
Lemma float_lt_zero x s :
  nonneg x = true -> float_lt x (S754_zero s) = false.
Proof.
  intros Hx. nonneg_destruct Hx; destruct s; reflexivity.
Qed.

End ErrOrder.

Import ErrOrder.

(** * The stable sort by error *)

Lemma ranked_before_err_le x y :
  err_nonneg x -> err_nonneg y -> ranked_before x y -> err_le x y.
Proof.
  intros Hx Hy [H|[H _]]; unfold err_le.
  - apply float_lt_asym; assumption.
  - apply float_eq_not_gt; assumption.
Qed.

Lemma insert_by_err_perm x l : Permutation (insert_by_err x l) (x :: l).
Proof.
  induction l as [|y l IH]; simpl; [reflexivity|].
  destruct (float_lt (err y) (err x)); [|reflexivity].
  rewrite IH. apply perm_swap.
Qed.

Lemma sort_by_err_perm l : Permutation (sort_by_err l) l.
Proof.
  induction l as [|x l IH]; simpl; [reflexivity|].
  rewrite insert_by_err_perm. constructor; assumption.
Qed.

Lemma sort_by_err_length l :
  List.length (sort_by_err l) = List.length l.
Proof. apply Permutation_length, sort_by_err_perm. Qed.

Lemma sort_by_err_nil l : sort_by_err l = [] -> l = [].
Proof.
  intros H. apply Permutation_nil.
  rewrite <- H. apply sort_by_err_perm.
Qed.

(** Inserting a candidate whose denominator is below all the others keeps
    the ranking. *)
Lemma insert_by_err_ranked x s :
  err_nonneg x -> Forall err_nonneg s ->
  Forall (fun y => den x < den y) s ->
  StronglySorted ranked_before s ->
  StronglySorted ranked_before (insert_by_err x s).
Proof.
  intros Hx. induction s as [|y s IH]; intros Hnn Hden Hs; simpl.
  - repeat constructor.
  - inversion Hnn as [|? ? Hy Hnn']; subst.
    inversion Hden as [|? ? Hxy Hden']; subst.
    inversion Hs as [|? ? Hs' Hys]; subst.
    destruct (float_lt (err y) (err x)) eqn:Hlt.
    + constructor; [apply IH; assumption|].
      eapply Permutation_Forall.
      * symmetry. apply insert_by_err_perm.
      * constructor; [left; assumption|assumption].
    + constructor; [assumption|].
      assert (Hxy' : ranked_before x y).
      { destruct (float_trichotomy (err x) (err y) Hx Hy) as [H|[H|H]].
        - left; assumption.
        - right; auto.
        - congruence. }
      constructor; [assumption|].
      rewrite Forall_forall in Hys, Hden', Hnn' |- *.
      intros z Hz.
      destruct (float_trichotomy (err x) (err z) Hx (Hnn' z Hz)) as [H|[H|H]].
      * left; assumption.
      * right; auto.
      * exfalso.
        pose proof (float_lt_le_trans (err z) (err x) (err y)
                      Hx Hy (Hnn' z Hz) H Hlt) as Hzy.
        destruct (Hys z Hz) as [Hyz|[Hyz _]].
        -- apply float_lt_asym in Hyz. congruence.
        -- pose proof (float_eq_not_gt _ _ Hy (Hnn' z Hz) Hyz). congruence.
Qed.

(** On candidates listed by increasing denominator, the sort ranks by
    error first and by denominator among equal errors. *)
Lemma sort_by_err_ranked l :
  Forall err_nonneg l ->
  StronglySorted Z.lt (map den l) ->
  StronglySorted ranked_before (sort_by_err l).
Proof.
  induction l as [|x l IH]; intros Hnn Hs; simpl.
  - constructor.
  - inversion Hnn as [|? ? Hx Hnn']; subst.
    simpl in Hs. inversion Hs as [|? ? Hs' Hlt]; subst.
    apply insert_by_err_ranked; auto.
    + eapply Permutation_Forall; [symmetry; apply sort_by_err_perm|assumption].
    + eapply Permutation_Forall; [symmetry; apply sort_by_err_perm|].
      rewrite Forall_map in Hlt. assumption.
Qed.

Lemma sort_by_err_sorted l :
  Forall err_nonneg l ->
  StronglySorted Z.lt (map den l) ->
  StronglySorted err_le (sort_by_err l).
Proof.
  intros Hnn Hs.
  assert (Hnn' : Forall err_nonneg (sort_by_err l)).
  { eapply Permutation_Forall; [symmetry; apply sort_by_err_perm|assumption]. }
  pose proof (sort_by_err_ranked l Hnn Hs) as H.
  induction H as [|x s Hs' IH Hx]; constructor.
  - apply IH. inversion Hnn'; assumption.
  - inversion Hnn' as [|? ? Hnx Hns]; subst.
    rewrite Forall_forall in Hx, Hns |- *.
    intros y Hy. apply ranked_before_err_le; auto.
Qed.

Lemma firstn_min_length {A} n (l : list A) :
  firstn (Nat.min n (List.length l)) l = firstn n l.
Proof. rewrite <- firstn_firstn, firstn_all. reflexivity. Qed.

Lemma firstn_In {A} n (l : list A) x : In x (firstn n l) -> In x l.
Proof.
  intros H. rewrite <- (firstn_skipn n l). apply in_or_app. left; assumption.
Qed.

(** * Structure of a call *)

Lemma rank_snd T cs ss : snd (rank T cs ss) = firstn 5 (sort_by_err cs).
Proof.
  unfold rank. destruct (sort_by_err ss) as [|s ?]; [reflexivity|].
  destruct (float_lt (err s) T); [|reflexivity].
  destruct (negb _); reflexivity.
Qed.

Lemma rank_fst T cs ss :
  fst (rank T cs ss) =
  match sort_by_err ss with
  | [] => ModeNone
  | s :: _ =>
      if float_lt (err s) T &&
         negb (match sort_by_err cs with
               | [] => false
               | g :: _ => same_pair s g
               end)
      then ModeCand s else ModeNone
  end.
Proof.
  unfold rank. destruct (sort_by_err ss) as [|s ?]; [reflexivity|].
  destruct (float_lt (err s) T); [|reflexivity].
  simpl. destruct (negb _); reflexivity.
Qed.

Lemma limit_small_inv a b target m l :
  limit_small a b target = Ok (m, l) ->
  exists q r i,
    int_truediv b a = Ok q /\ py_round q = Ok r /\
    int_truediv 1 (Z.max 1 r) = Ok i /\
    m = ModeStr "limit_small" /\
    l = [mkCand 1 (Z.max 1 r) (float_abs (float_sub i target))].
Proof.
  unfold limit_small.
  destruct (int_truediv b a) as [q|] eqn:Eq; cbn [bind]; [|discriminate].
  destruct (py_round q) as [r|] eqn:Er; cbn [bind]; [|discriminate].
  destruct (int_truediv 1 (Z.max 1 r)) as [i|] eqn:Ei; cbn [bind];
    [|discriminate].
  intros H; inversion H; subst. exists q, r, i. repeat split; assumption.
Qed.

Lemma limit_large_inv a b target m l :
  limit_large a b target = Ok (m, l) ->
  exists q r v,
    int_truediv a b = Ok q /\ py_round q = Ok r /\
    int_truediv (Z.max 1 r) 1 = Ok v /\
    m = ModeStr "limit_large" /\
    l = [mkCand (Z.max 1 r) 1 (float_abs (float_sub v target))].
Proof.
  unfold limit_large.
  destruct (int_truediv a b) as [q|] eqn:Eq; cbn [bind]; [|discriminate].
  destruct (py_round q) as [r|] eqn:Er; cbn [bind]; [|discriminate].
  destruct (int_truediv (Z.max 1 r) 1) as [v|] eqn:Ev; cbn [bind];
    [|discriminate].
  intros H; inversion H; subst. exists q, r, v. repeat split; assumption.
Qed.

(** A call that returns went through the division and the loop, and then
    either through a limit mode (no candidate) or through the ranking. *)
Lemma approximate_top5_inv M T a b m l :
  0 < a -> 0 < b ->
  approximate_top5 M T a b = Ok (m, l) ->
  exists target cs ss,
    int_truediv a b = Ok target /\ finite_pos target = true /\
    search_loop M target = Ok (cs, ss) /\
    ((cs = [] /\
      (if a <? b then limit_small a b target
       else limit_large a b target) = Ok (m, l)) \/
     (cs <> [] /\ rank T cs ss = (m, l))).
Proof.
  intros Ha Hb. unfold approximate_top5.
  destruct (int_truediv a b) as [target|] eqn:Et; cbn [bind]; [|discriminate].
  destruct (search_loop M target) as [[cs ss]|] eqn:El; cbn [bind];
    [|discriminate].
  intros H. exists target, cs, ss.
  split; [reflexivity|].
  split; [apply (int_truediv_finite_pos a b); assumption|].
  split; [assumption|].
  destruct cs as [|c cs]; [left; auto|right].
  split; [discriminate|]. inversion H; reflexivity.
Qed.

Lemma generated_limit_small r i target :
  finite_pos target = true ->
  int_truediv 1 (Z.max 1 r) = Ok i ->
  generated target (mkCand 1 (Z.max 1 r) (float_abs (float_sub i target))).
Proof.
  intros Ht Hi. unfold generated; simpl.
  split; [lia|]. split; [lia|]. split; [apply Z.gcd_1_l|].
  split; [exists i; auto|].
  apply float_abs_nonneg, float_sub_not_nan.
  - apply finite_pos_finite.
    apply (int_truediv_finite_pos 1 (Z.max 1 r)); auto; lia.
  - apply finite_pos_finite; assumption.
Qed.

Lemma generated_limit_large r v target :
  finite_pos target = true ->
  int_truediv (Z.max 1 r) 1 = Ok v ->
  generated target (mkCand (Z.max 1 r) 1 (float_abs (float_sub v target))).
Proof.
  intros Ht Hv. unfold generated; simpl.
  split; [lia|]. split; [lia|]. split; [apply Z.gcd_1_r|].
  split; [exists v; auto|].
  apply float_abs_nonneg, float_sub_not_nan.
  - apply finite_pos_finite.
    apply (int_truediv_finite_pos (Z.max 1 r) 1); auto; lia.
  - apply finite_pos_finite; assumption.
Qed.

Lemma generated_err_nonneg target c : generated target c -> err_nonneg c.
Proof. intros (_ & _ & _ & _ & H); exact H. Qed.

Lemma Forall_generated_nonneg target cs :
  Forall (generated target) cs -> Forall err_nonneg cs.
Proof. apply Forall_impl, generated_err_nonneg. Qed.

Lemma sort_by_err_head_best target l x rest :
  Forall (generated target) l ->
  StronglySorted Z.lt (map den l) ->
  sort_by_err l = x :: rest ->
  best_of l x.
Proof.
  intros Hg Hs E.
  pose proof (sort_by_err_ranked l (Forall_generated_nonneg _ _ Hg) Hs) as H.
  pose proof (sort_by_err_perm l) as P.
  rewrite E in H, P. inversion H as [|? ? _ Hx]; subst.
  split.
  - eapply Permutation_in; [exact P|]. left; reflexivity.
  - intros c Hc. apply Permutation_sym in P.
    pose proof (Permutation_in _ P Hc) as [->|Hin]; [left; reflexivity|].
    right. rewrite Forall_forall in Hx. apply Hx, Hin.
Qed.

Lemma filter_sorted_den l :
  StronglySorted Z.lt (map den l) ->
  StronglySorted Z.lt (map den (filter single_digit l)).
Proof.
  induction l as [|x l IH]; simpl; intros H; [constructor|].
  inversion H as [|? ? Hs Hlt]; subst.
  destruct (single_digit x); simpl; [|auto].
  constructor; [auto|].
  rewrite Forall_map in *. rewrite Forall_forall in *.
  intros y Hy. apply Hlt. apply filter_In in Hy. tauto.
Qed.

Lemma Forall_filter {A} (P : A -> Prop) f l :
  Forall P l -> Forall P (filter f l).
Proof.
  rewrite !Forall_forall. intros H x Hx. apply H.
  apply filter_In in Hx. tauto.
Qed.

(** * Floats: magnitudes

    Bounds on the number of binary digits, to show that the rounded
    results of the search are finite on inputs of moderate size. *)

Module Magnitude.

Lemma digits2_pos_size p : digits2_pos p = Pos.size p.
Proof. induction p; simpl; congruence. Qed.

Lemma Zdigits2_nonneg x : 0 <= Zdigits2 x.
Proof. destruct x; simpl; lia. Qed.

Lemma Zdigits2_pos x : 0 < x -> 1 <= Zdigits2 x.
Proof. destruct x; simpl; lia. Qed.

Lemma Zdigits2_lt x : 0 <= x -> x < 2 ^ Zdigits2 x.
Proof.
  destruct x as [|p|p]; simpl Zdigits2; intros H; [reflexivity| |lia].
  rewrite digits2_pos_size.
  pose proof (Pos.size_gt p) as Hp.
  apply Pos2Z.pos_lt_pos in Hp. rewrite Pos2Z.inj_pow in Hp. exact Hp.
Qed.

Lemma Zdigits2_ge x : 0 < x -> 2 ^ (Zdigits2 x - 1) <= x.
Proof.
  destruct x as [|p|p]; simpl Zdigits2; intros H; try lia.
  rewrite digits2_pos_size.
  pose proof (Pos.size_le p) as Hp.
  apply Pos2Z.pos_le_pos in Hp. rewrite Pos2Z.inj_pow in Hp.
  assert (E : 2 ^ Z.pos (Pos.size p) = 2 * 2 ^ (Z.pos (Pos.size p) - 1)).
  { rewrite <- Z.pow_succ_r by lia. f_equal. lia. }
  rewrite E in Hp. change (Z.pos p~0) with (2 * Z.pos p) in Hp. lia.
Qed.

Lemma Zdigits2_le_of_lt x k :
  0 <= x -> 0 <= k -> x < 2 ^ k -> Zdigits2 x <= k.
Proof.
  intros Hx Hk Hlt.
  destruct (Z.eq_dec x 0) as [->|Hx0]; [simpl; assumption|].
  destruct (Z_le_gt_dec (Zdigits2 x) k) as [|Hgt]; [assumption|exfalso].
  pose proof (Zdigits2_ge x ltac:(lia)) as Hge.
  assert (2 ^ k <= 2 ^ (Zdigits2 x - 1)) by (apply Z.pow_le_mono_r; lia).
  lia.
Qed.

Lemma Zdigits2_mono x y : 0 <= x <= y -> Zdigits2 x <= Zdigits2 y.
Proof.
  intros H. apply Zdigits2_le_of_lt; [lia|apply Zdigits2_nonneg|].
  pose proof (Zdigits2_lt y ltac:(lia)). lia.
Qed.

Lemma Zdigits2_succ m : 0 <= m -> Zdigits2 (m + 1) <= Zdigits2 m + 1.
Proof.
  intros Hm. pose proof (Zdigits2_nonneg m).
  apply Zdigits2_le_of_lt; [lia|lia|].
  pose proof (Zdigits2_lt m Hm).
  rewrite Z.pow_add_r by lia. change (2 ^ 1) with 2. lia.
Qed.

Lemma Zdigits2_mul x y :
  0 <= x -> 0 <= y -> Zdigits2 (x * y) <= Zdigits2 x + Zdigits2 y.
Proof.
  intros Hx Hy.
  pose proof (Zdigits2_nonneg x). pose proof (Zdigits2_nonneg y).
  apply Zdigits2_le_of_lt; [nia|lia|].
  rewrite Z.pow_add_r by assumption.
  pose proof (Zdigits2_lt x Hx). pose proof (Zdigits2_lt y Hy). nia.
Qed.

Lemma Zdigits2_div_pow2 m n :
  0 <= m -> 0 <= n -> Zdigits2 (m / 2 ^ n) <= Z.max (Zdigits2 m - n) 0.
Proof.
  intros Hm Hn.
  assert (Hp : 0 < 2 ^ n) by (apply Z.pow_pos_nonneg; lia).
  pose proof (Zdigits2_lt m Hm) as Hlt.
  destruct (Z_le_gt_dec n (Zdigits2 m)) as [Hle|Hgt].
  - apply Zdigits2_le_of_lt; [apply Z.div_pos; lia|lia|].
    rewrite Z.max_l by lia.
    apply Z.div_lt_upper_bound; [assumption|].
    rewrite <- Z.pow_add_r by lia.
    replace (n + (Zdigits2 m - n)) with (Zdigits2 m) by lia. assumption.
  - assert (2 ^ Zdigits2 m <= 2 ^ n).
    { apply Z.pow_le_mono_r; [lia|]. lia. }
    rewrite Z.div_small by lia. simpl. lia.
Qed.

Lemma fexp_eq z : fexp prec emax z = Z.max (z - 53) (-1074).
Proof. reflexivity. Qed.

Lemma fits_finite K E f : fits K E f -> is_finite f = true.
Proof. destruct f; simpl; intros; auto; contradiction. Qed.

Lemma fits_weaken K E K' E' f :
  K <= K' -> E <= E' -> fits K E f -> fits K' E' f.
Proof. destruct f; simpl; intros; auto; lia. Qed.

Lemma shr_fexp_bounds m e l K E :
  0 <= m -> Zdigits2 m + e <= K -> e <= E ->
  K - 53 <= E -> -1074 <= E -> -1074 <= K ->
  let '(mrs, e') := shr_fexp prec emax m e l in
  0 <= shr_m mrs /\ Zdigits2 (shr_m mrs) + e' <= K /\ e' <= E.
Proof.
  intros Hm HK HE HKE HminE HminK.
  pose proof (shr_fexp_spec m e l Hm) as H. cbv zeta in H.
  destruct (shr_fexp prec emax m e l) as [mrs e'].
  rewrite fexp_eq in H. destruct H as [Ha Hb].
  destruct (Z_lt_le_dec 0 (Z.max (Zdigits2 m + e - 53) (-1074) - e))
    as [Hn|Hn].
  - destruct (Ha Hn) as [Hm' He']. rewrite Hm', He'.
    pose proof (Zdigits2_div_pow2 m _ Hm (Z.lt_le_incl _ _ Hn)) as Hd.
    split; [apply Z.div_pos; [lia|apply Z.pow_pos_nonneg; lia]|].
    lia.
  - destruct (Hb Hn) as [Hm' He']. rewrite Hm', He'. lia.
Qed.

(** Rounding [m * 2^e] gives a finite float as soon as the magnitude
    leaves room for one carry. *)
Lemma round_float_fits s m e l K E :
  0 <= m -> Zdigits2 m + e + 1 <= K -> e <= E ->
  K - 53 <= E -> -1074 <= E -> -1073 <= K -> E <= 971 ->
  fits K E (round_float s m e l).
Proof.
  intros Hm HK HE HKE HminE HminK HE'.
  unfold round_float, binary_round_aux.
  pose proof (shr_fexp_bounds m e l (K - 1) E Hm) as H1.
  destruct (shr_fexp prec emax m e l) as [mrs1 e1].
  destruct H1 as (Hm1 & HK1 & HE1); try lia.
  set (m1 := round_nearest_even (shr_m mrs1) (loc_of_shr_record mrs1)).
  pose proof (round_nearest_even_bounds (shr_m mrs1) (loc_of_shr_record mrs1))
    as Hr. fold m1 in Hr.
  assert (Hd1 : Zdigits2 m1 <= Zdigits2 (shr_m mrs1) + 1).
  { etransitivity; [apply (Zdigits2_mono m1 (shr_m mrs1 + 1)); lia|].
    apply Zdigits2_succ; assumption. }
  pose proof (shr_fexp_bounds m1 e1 loc_Exact K E) as H2.
  destruct (shr_fexp prec emax m1 e1 loc_Exact) as [mrs2 e2].
  destruct H2 as (Hm2 & HK2 & HE2); try lia.
  destruct (shr_m mrs2) as [|p|p]; [exact I| |lia].
  change (emax - prec) with 971.
  destruct (Z.leb_spec e2 971); [|lia].
  simpl. split; assumption.
Qed.

(** *** Division *)

Lemma div_mant_digits a b :
  0 < a -> 0 < b ->
  Zdigits2 (div_mant a b) <=
  Z.max 0 (Zdigits2 a - Zdigits2 b + 1 - div_exp a b).
Proof.
  intros Ha Hb. unfold div_mant.
  pose proof (div_exp_nonpos a b) as He.
  set (s := - div_exp a b). assert (Hs : 0 <= s) by (unfold s; lia).
  replace (Zdigits2 a - Zdigits2 b + 1 - div_exp a b)
    with (Zdigits2 a + s - Zdigits2 b + 1) by (unfold s; lia).
  rewrite Z.shiftl_mul_pow2 by assumption.
  pose proof (Zdigits2_lt a ltac:(lia)) as Hla.
  pose proof (Zdigits2_ge b Hb) as Hgb.
  pose proof (Zdigits2_pos a Ha). pose proof (Zdigits2_pos b Hb).
  assert (Hps : 0 < 2 ^ s) by (apply Z.pow_pos_nonneg; lia).
  assert (Hnum : a * 2 ^ s < 2 ^ (Zdigits2 a + s)).
  { rewrite Z.pow_add_r by lia. nia. }
  destruct (Z_le_gt_dec 0 (Zdigits2 a + s - Zdigits2 b + 1)) as [Hk|Hk].
  - rewrite Z.max_r by assumption.
    apply Zdigits2_le_of_lt; [apply Z.div_pos; nia|assumption|].
    apply Z.div_lt_upper_bound; [assumption|].
    assert (2 ^ (Zdigits2 a + s) =
            2 ^ (Zdigits2 b - 1) * 2 ^ (Zdigits2 a + s - Zdigits2 b + 1)).
    { rewrite <- Z.pow_add_r by lia. f_equal. lia. }
    assert (0 < 2 ^ (Zdigits2 a + s - Zdigits2 b + 1))
      by (apply Z.pow_pos_nonneg; lia).
    nia.
  - assert (2 ^ (Zdigits2 a + s) <= 2 ^ (Zdigits2 b - 1)).
    { apply Z.pow_le_mono_r; lia. }
    rewrite Z.div_small by nia. simpl. lia.
Qed.

(** [a / b] is finite provided the quotient is below [2 ^ 1023]. *)
Lemma int_truediv_fits a b K :
  0 < a -> 0 < b ->
  Zdigits2 a - Zdigits2 b + 2 <= K -> -1072 <= K -> K <= 1024 ->
  exists f, int_truediv a b = Ok f /\ fits K (Z.max 0 (K - 53)) f.
Proof.
  intros Ha Hb HK Hmin Hmax.
  rewrite int_truediv_pos by assumption.
  pose proof (div_mant_digits a b Ha Hb) as Hd.
  pose proof (div_exp_nonpos a b) as He.
  assert (He' : div_exp a b <= Z.max (Zdigits2 a - Zdigits2 b - 53) (-1074)).
  { unfold div_exp. rewrite fexp_eq. lia. }
  assert (H : fits K (Z.max 0 (K - 53))
                (round_float false (div_mant a b) (div_exp a b)
                   (new_location b (Z.shiftl a (- div_exp a b) mod b)))).
  { apply round_float_fits; try lia. apply div_mant_nonneg; assumption. }
  destruct (round_float false (div_mant a b) (div_exp a b) _)
    as [s|s| |s m e]; try contradiction; eexists; split;
    try reflexivity; exact H.
Qed.

(** *** Conversion of an int *)

Lemma digits2_pos_iter_xO d m :
  Z.pos (digits2_pos (Pos.iter xO m d)) = Z.pos (digits2_pos m) + Z.pos d.
Proof.
  induction d as [|d IH] using Pos.peano_ind.
  - simpl. lia.
  - rewrite Pos.iter_succ. simpl digits2_pos. lia.
Qed.

Lemma shl_align_spec mx ex ex' :
  let '(mz, ez) := shl_align mx ex ex' in
  Zdigits2 (Z.pos mz) + ez = Zdigits2 (Z.pos mx) + ex /\ ez <= ex.
Proof.
  unfold shl_align. destruct (ex' - ex) as [|d|d] eqn:E; simpl Zdigits2.
  - lia.
  - lia.
  - rewrite digits2_pos_iter_xO. lia.
Qed.

Lemma float_of_int_fits n K :
  0 < n -> Zdigits2 n + 1 <= K -> K <= 1024 ->
  exists f, float_of_int n = Ok f /\ fits K (Z.max 0 (K - 53)) f.
Proof.
  intros Hn HK Hmax. unfold float_of_int, binary_normalize.
  destruct n as [|p|p]; try lia.
  unfold binary_round.
  pose proof (shl_align_spec p 0 (fexp prec emax (Z.pos (digits2_pos p) + 0)))
    as Hs.
  destruct (shl_align p 0 _) as [mz ez]. destruct Hs as [Hd He].
  fold (round_float false (Z.pos mz) ez loc_Exact).
  pose proof (Zdigits2_pos (Z.pos p) ltac:(lia)).
  assert (Hf : fits K (Z.max 0 (K - 53))
                (round_float false (Z.pos mz) ez loc_Exact)).
  { apply round_float_fits; simpl Zdigits2 in *; lia. }
  destruct (round_float false (Z.pos mz) ez loc_Exact)
    as [s|s| |s m e]; try contradiction; eexists; split;
    try reflexivity; exact Hf.
Qed.

(** *** Products *)

Lemma SFmul_fits x y K1 E1 K2 E2 K :
  fits K1 E1 x -> fits K2 E2 y ->
  K1 + K2 + 1 <= K -> E1 + E2 <= 971 -> -1073 <= K -> K <= 1024 ->
  fits K 971 (SFmul prec emax x y).
Proof.
  destruct x as [sx| | |sx mx ex]; try contradiction;
  destruct y as [sy| | |sy my ey]; try contradiction;
    cbn [fits]; intros Hx Hy HK HE Hmin Hmax; try exact I.
  unfold SFmul.
  fold (round_float (xorb sx sy) (Z.pos (mx * my)) (ex + ey) loc_Exact).
  pose proof (Zdigits2_mul (Z.pos mx) (Z.pos my) ltac:(lia) ltac:(lia))
    as Hm.
  cbn [Zdigits2 Z.mul] in *.
  apply round_float_fits; cbn [Zdigits2]; lia.
Qed.

(** *** Rounding to an int *)

Lemma py_round_fits x K E :
  fits K E x -> sign_bit x = false ->
  exists n, py_round x = Ok n /\ 0 <= n /\ Zdigits2 n <= Z.max K 0 + 1.
Proof.
  destruct x as [s| | |s m e]; try contradiction;
    cbn [fits sign_bit py_round].
  - intros _ _. exists 0. simpl. repeat split; lia.
  - intros [HK HE] ->. eexists; split; [reflexivity|].
    destruct (Z.leb_spec 0 e) as [He|He].
    + rewrite Z.shiftl_mul_pow2 by assumption.
      assert (0 < 2 ^ e) by (apply Z.pow_pos_nonneg; lia).
      split; [nia|].
      pose proof (Zdigits2_lt (Z.pos m) ltac:(lia)) as Hlt.
      pose proof (Zdigits2_nonneg (Z.pos m)).
      etransitivity; [|apply Z.le_succ_diag_r].
      etransitivity; [|apply Z.le_max_l].
      etransitivity; [|exact HK].
      apply Zdigits2_le_of_lt; [nia|lia|].
      rewrite Z.pow_add_r by lia. nia.
    + pose proof (round_half_even_bounds (Z.pos m) (- e) ltac:(lia)) as Hr.
      assert (Hq : 0 <= Z.pos m / 2 ^ (- e)).
      { apply Z.div_pos; [lia|apply Z.pow_pos_nonneg; lia]. }
      split; [lia|].
      pose proof (Zdigits2_div_pow2 (Z.pos m) (- e) ltac:(lia) ltac:(lia)).
      pose proof (Zdigits2_succ _ Hq).
      pose proof (Zdigits2_mono (round_half_even (Z.pos m) (- e))
                    (Z.pos m / 2 ^ (- e) + 1) ltac:(lia)).
      lia.
Qed.

End Magnitude.

Import Magnitude.

(** * Which exceptions a call can raise *)

Lemma py_round_raise x e :
  is_nan x = false -> py_round x = Raise e -> e = OverflowError.
Proof.
  destruct x; simpl; intros Hn H; inversion H; try reflexivity; discriminate.
Qed.

Lemma search_step_raise target st d e :
  finite_pos target = true -> 0 < d ->
  search_step target st d = Raise e -> e = OverflowError.
Proof.
  intros Ht Hd. destruct st as [cs ss]. unfold search_step.
  destruct (float_mul_int target d) as [p|e1] eqn:Ep; cbn [bind].
  2:{ intros H; inversion H; subst. unfold float_mul_int in Ep.
      destruct (float_of_int d) as [y|e2] eqn:Ey; cbn [bind] in Ep;
        [discriminate|].
      inversion Ep; subst. apply (float_of_int_raise d); assumption. }
  destruct (float_mul_int_shape _ _ _ Ht Hd Ep) as [Hnan _].
  destruct (py_round p) as [n|e1] eqn:En; cbn [bind].
  2:{ intros H; inversion H; subst. apply (py_round_raise p); assumption. }
  destruct (n =? 0); [discriminate|].
  destruct (negb _); [discriminate|].
  destruct (int_truediv n d) as [q|e1] eqn:Eq; cbn [bind]; [discriminate|].
  intros H; inversion H; subst. apply (int_truediv_raise n d); [lia|assumption].
Qed.

Lemma search_from_raise target dens : forall st e,
  finite_pos target = true ->
  Forall (fun d => 0 < d) dens ->
  search_from target st dens = Raise e -> e = OverflowError.
Proof.
  induction dens as [|d dens IH]; intros st e Ht Hpos; cbn [search_from].
  - discriminate.
  - inversion Hpos as [|? ? Hd Hpos']; subst.
    destruct (search_step target st d) as [st'|e1] eqn:E1; cbn [bind].
    + apply IH; assumption.
    + intros H; inversion H; subst.
      apply (search_step_raise target st d); assumption.
Qed.

Lemma search_loop_raise M target e :
  finite_pos target = true ->
  search_loop M target = Raise e -> e = OverflowError.
Proof.
  intros Ht. apply search_from_raise; [assumption|].
  rewrite Forall_forall. intros d Hd. apply py_range_spec in Hd. lia.
Qed.

Lemma int_truediv_round_ok a b q :
  0 < a -> 0 < b -> int_truediv a b = Ok q -> exists r, py_round q = Ok r.
Proof.
  intros Ha Hb H. apply py_round_ok, finite_pos_finite.
  apply (int_truediv_finite_pos a b); assumption.
Qed.

Lemma limit_small_raise a b target e :
  0 < a -> 0 < b ->
  limit_small a b target = Raise e -> e = OverflowError.
Proof.
  intros Ha Hb. unfold limit_small.
  destruct (int_truediv b a) as [q|e1] eqn:Eq; cbn [bind].
  2:{ intros H; inversion H; subst.
      apply (int_truediv_raise b a); [lia|assumption]. }
  destruct (int_truediv_round_ok b a q Hb Ha Eq) as [r ->]. cbn [bind].
  destruct (int_truediv 1 (Z.max 1 r)) as [i|e1] eqn:Ei; cbn [bind];
    [discriminate|].
  intros H; inversion H; subst.
  apply (int_truediv_raise 1 (Z.max 1 r)); [lia|assumption].
Qed.

Lemma limit_large_raise a b target e :
  0 < a -> 0 < b ->
  limit_large a b target = Raise e -> e = OverflowError.
Proof.
  intros Ha Hb. unfold limit_large.
  destruct (int_truediv a b) as [q|e1] eqn:Eq; cbn [bind].
  2:{ intros H; inversion H; subst.
      apply (int_truediv_raise a b); [lia|assumption]. }
  destruct (int_truediv_round_ok a b q Ha Hb Eq) as [r ->]. cbn [bind].
  destruct (int_truediv (Z.max 1 r) 1) as [v|e1] eqn:Ev; cbn [bind];
    [discriminate|].
  intros H; inversion H; subst.
  apply (int_truediv_raise (Z.max 1 r) 1); [lia|assumption].
Qed.

(** On positive ints no division is by zero and no NaN is rounded: a call
    that raises raises [OverflowError]. *)
Lemma approximate_top5_raise M T a b e :
  0 < a -> 0 < b ->
  approximate_top5 M T a b = Raise e -> e = OverflowError.
Proof.
  intros Ha Hb. unfold approximate_top5.
  destruct (int_truediv a b) as [target|e1] eqn:Et; cbn [bind].
  2:{ intros H; inversion H; subst.
      apply (int_truediv_raise a b); [lia|assumption]. }
  pose proof (int_truediv_finite_pos a b target Ha Hb Et) as Ht.
  destruct (search_loop M target) as [[cs ss]|e1] eqn:El; cbn [bind].
  2:{ intros H; inversion H; subst.
      apply (search_loop_raise M target); assumption. }
  destruct cs; [|discriminate].
  destruct (a <? b).
  - apply limit_small_raise; assumption.
  - apply limit_large_raise; assumption.
Qed.

(** * Inputs on which a call returns *)

Lemma Zdigits2_below x k : 0 <= x < 2 ^ k -> 0 <= k -> Zdigits2 x <= k.
Proof. intros [H1 H2] Hk. apply Zdigits2_le_of_lt; assumption. Qed.

Lemma search_step_total target st d Kt :
  finite_pos target = true ->
  fits Kt (Z.max 0 (Kt - 53)) target ->
  0 <= Kt <= 962 ->
  0 < d < 2 ^ 53 ->
  exists st', search_step target st d = Ok st'.
Proof.
  intros Ht Hfit HKt Hd. destruct st as [cs ss].
  unfold search_step, float_mul_int.
  pose proof (Zdigits2_below d 53 ltac:(lia) ltac:(lia)) as Hdd.
  destruct (float_of_int_fits d 54) as (y & Ey & Hy); try lia.
  rewrite Ey. cbn [bind].
  pose proof (float_of_int_shape d y ltac:(lia) Ey) as Hys.
  destruct (SFmul_finite_pos target y Ht Hys) as [_ Hsign].
  pose proof (SFmul_fits target y _ _ _ _ (Kt + 55) Hfit Hy
                ltac:(lia) ltac:(lia) ltac:(lia) ltac:(lia)) as Hp.
  destruct (py_round_fits _ _ _ Hp Hsign) as (n & En & Hn & Hdn).
  rewrite En. cbn [bind].
  destruct (n =? 0) eqn:En0; [eauto|].
  destruct (negb _); [eauto|].
  apply Z.eqb_neq in En0.
  pose proof (Zdigits2_pos d ltac:(lia)).
  destruct (int_truediv_fits n d (Kt + 58)) as (q & Eq & _); try lia.
  rewrite Eq. cbn [bind]. eauto.
Qed.

Lemma search_from_total target dens Kt : forall st,
  finite_pos target = true ->
  fits Kt (Z.max 0 (Kt - 53)) target ->
  0 <= Kt <= 962 ->
  Forall (fun d => 0 < d < 2 ^ 53) dens ->
  exists st', search_from target st dens = Ok st'.
Proof.
  induction dens as [|d dens IH]; intros st Ht Hfit HKt Hd;
    cbn [search_from].
  - eauto.
  - inversion Hd as [|? ? Hd1 Hd']; subst.
    destruct (search_step_total target st d Kt Ht Hfit HKt Hd1) as [st1 ->].
    cbn [bind]. apply IH; assumption.
Qed.

Lemma search_loop_total M target Kt :
  finite_pos target = true ->
  fits Kt (Z.max 0 (Kt - 53)) target ->
  0 <= Kt <= 962 ->
  M < 2 ^ 53 ->
  exists st, search_loop M target = Ok st.
Proof.
  intros Ht Hfit HKt HM. apply (search_from_total target _ Kt); auto.
  rewrite Forall_forall. intros d Hd. apply py_range_spec in Hd. lia.
Qed.

Lemma int_truediv_total a b :
  0 < a < 2 ^ 960 -> 0 < b ->
  exists f, int_truediv a b = Ok f /\ fits 961 908 f.
Proof.
  intros Ha Hb.
  pose proof (Zdigits2_below a 960 ltac:(lia) ltac:(lia)).
  pose proof (Zdigits2_pos b Hb).
  destruct (int_truediv_fits a b 961) as (f & Ef & Hf); try lia.
  exists f. split; [assumption|exact Hf].
Qed.

(** [1 / d] never overflows. *)
Lemma int_truediv_one_total d :
  0 < d -> exists f, int_truediv 1 d = Ok f.
Proof.
  intros Hd. pose proof (Zdigits2_pos d Hd).
  destruct (int_truediv_fits 1 d 2) as (f & Ef & _); simpl Zdigits2; try lia.
  eauto.
Qed.

Lemma limit_small_total a b target :
  0 < a -> 0 < b < 2 ^ 960 ->
  exists c, limit_small a b target = Ok (ModeStr "limit_small", [c]).
Proof.
  intros Ha Hb. unfold limit_small.
  destruct (int_truediv_total b a Hb Ha) as (q & -> & Hq). cbn [bind].
  destruct (py_round_ok q (fits_finite _ _ _ Hq)) as [r ->]. cbn [bind].
  destruct (int_truediv_one_total (Z.max 1 r) ltac:(lia)) as [i ->].
  cbn [bind]. eauto.
Qed.

Lemma limit_large_total a b target :
  0 < a < 2 ^ 960 -> 0 < b ->
  exists c, limit_large a b target = Ok (ModeStr "limit_large", [c]).
Proof.
  intros Ha Hb. unfold limit_large.
  destruct (int_truediv_total a b Ha Hb) as (q & Eq & Hq).
  rewrite Eq. cbn [bind].
  pose proof (int_truediv_finite_pos a b q ltac:(lia) Hb Eq) as Hqs.
  assert (Hsign : sign_bit q = false).
  { unfold finite_pos in Hqs. destruct (sign_bit q); [|reflexivity].
    rewrite andb_false_r in Hqs. discriminate. }
  destruct (py_round_fits q _ _ Hq Hsign) as (r & -> & Hr & Hdr).
  cbn [bind].
  assert (Hdm : Zdigits2 (Z.max 1 r) <= 962).
  { destruct (Z.max_spec 1 r) as [[_ ->]|[_ ->]]; [lia|simpl; lia]. }
  destruct (int_truediv_fits (Z.max 1 r) 1 965) as (v & -> & _);
    simpl Zdigits2; try lia.
  cbn [bind]. eauto.
Qed.

(** A call on ints below [2 ^ 960], with a denominator bound below
    [2 ^ 53], returns, and its list is not empty. *)
Lemma approximate_top5_total M T a b :
  M < 2 ^ 53 -> 0 < a < 2 ^ 960 -> 0 < b < 2 ^ 960 ->
  exists m l, approximate_top5 M T a b = Ok (m, l) /\ l <> [].
Proof.
  intros HM Ha Hb. unfold approximate_top5.
  destruct (int_truediv_total a b Ha ltac:(lia)) as (target & Et & Hfit).
  rewrite Et. cbn [bind].
  pose proof (int_truediv_finite_pos a b target ltac:(lia) ltac:(lia) Et)
    as Ht.
  destruct (search_loop_total M target 961 Ht Hfit ltac:(lia) HM)
    as [[cs ss] ->].
  cbn [bind]. destruct cs as [|c cs].
  - destruct (a <? b).
    + destruct (limit_small_total a b target ltac:(lia) Hb) as [c ->].
      eexists _, _. split; [reflexivity|discriminate].
    + destruct (limit_large_total a b target Ha ltac:(lia)) as [c ->].
      eexists _, _. split; [reflexivity|discriminate].
  - exists (fst (rank T (c :: cs) ss)), (snd (rank T (c :: cs) ss)).
    split; [destruct (rank _ _ _); reflexivity|].
    rewrite rank_snd.
    destruct (sort_by_err (c :: cs)) eqn:E; [|discriminate].
    apply sort_by_err_nil in E. discriminate.
Qed.

(** * Targets that are at least one *)

Lemma shr_fexp_ge_one m e l :
  1 <= m -> 2 ^ (- e) <= m ->
  let '(mrs, e') := shr_fexp prec emax m e l in
  1 <= shr_m mrs /\ 2 ^ (- e') <= shr_m mrs.
Proof.
  intros Hm Hge.
  pose proof (shr_fexp_spec m e l ltac:(lia)) as H. cbv zeta in H.
  destruct (shr_fexp prec emax m e l) as [mrs e'].
  rewrite fexp_eq in H. destruct H as [Ha Hb].
  pose proof (Zdigits2_lt m ltac:(lia)) as Hlt.
  pose proof (Zdigits2_ge m ltac:(lia)) as Hlow.
  pose proof (Zdigits2_pos m ltac:(lia)) as Hd.
  assert (Hde : 1 <= Zdigits2 m + e).
  { destruct (Z_le_gt_dec 1 (Zdigits2 m + e)) as [|Hgt]; [assumption|].
    exfalso.
    assert (2 ^ Zdigits2 m <= 2 ^ (- e)) by (apply Z.pow_le_mono_r; lia).
    lia. }
  destruct (Z_lt_le_dec 0 (Z.max (Zdigits2 m + e - 53) (-1074) - e))
    as [Hn|Hn].
  - destruct (Ha Hn) as [Hm' He']. rewrite Hm', He'.
    replace (Z.max (Zdigits2 m + e - 53) (-1074) - e)
      with (Zdigits2 m - 53) in * by lia.
    assert (H52 : 2 ^ 52 <= m / 2 ^ (Zdigits2 m - 53)).
    { apply Z.div_le_lower_bound; [apply Z.pow_pos_nonneg; lia|].
      rewrite <- Z.pow_add_r by lia.
      replace (Zdigits2 m - 53 + 52) with (Zdigits2 m - 1) by lia.
      assumption. }
    assert (2 ^ (- (e + (Zdigits2 m - 53))) <= 2 ^ 52)
      by (apply Z.pow_le_mono_r; lia).
    lia.
  - destruct (Hb Hn) as [Hm' He']. rewrite Hm', He'. lia.
Qed.

Lemma round_float_ge_one m e l :
  1 <= m -> 2 ^ (- e) <= m ->
  round_float false m e l = S754_infinity false \/
  ge_one (round_float false m e l).
Proof.
  intros Hm Hge. unfold round_float, binary_round_aux.
  pose proof (shr_fexp_ge_one m e l Hm Hge) as H1.
  destruct (shr_fexp prec emax m e l) as [mrs1 e1].
  destruct H1 as [Hm1 Hge1].
  set (m1 := round_nearest_even (shr_m mrs1) (loc_of_shr_record mrs1)).
  pose proof (round_nearest_even_bounds (shr_m mrs1) (loc_of_shr_record mrs1))
    as Hr. fold m1 in Hr.
  pose proof (shr_fexp_ge_one m1 e1 loc_Exact ltac:(lia) ltac:(lia)) as H2.
  destruct (shr_fexp prec emax m1 e1 loc_Exact) as [mrs2 e2].
  destruct H2 as [Hm2 Hge2].
  destruct (shr_m mrs2) as [|p|p]; try lia.
  destruct (e2 <=? emax - prec); [right; exact Hge2|left; reflexivity].
Qed.

Lemma div_mant_ge_one a b :
  0 < b <= a -> 1 <= div_mant a b /\ 2 ^ (- div_exp a b) <= div_mant a b.
Proof.
  intros Hab. unfold div_mant.
  pose proof (div_exp_nonpos a b).
  rewrite Z.shiftl_mul_pow2 by lia.
  assert (Hp : 0 < 2 ^ (- div_exp a b)) by (apply Z.pow_pos_nonneg; lia).
  assert (2 ^ (- div_exp a b) <= a * 2 ^ (- div_exp a b) / b).
  { apply Z.div_le_lower_bound; [lia|nia]. }
  lia.
Qed.

Lemma int_truediv_ge_one a b f :
  0 < b <= a -> int_truediv a b = Ok f -> ge_one f.
Proof.
  intros Hab. rewrite int_truediv_pos by lia.
  destruct (div_mant_ge_one a b Hab) as [H1 H2].
  destruct (round_float_ge_one (div_mant a b) (div_exp a b)
              (new_location b (Z.shiftl a (- div_exp a b) mod b)) H1 H2)
    as [E|E].
  - rewrite E. discriminate.
  - destruct (round_float false (div_mant a b) (div_exp a b) _);
      try contradiction.
    intros H; inversion H; subst. exact E.
Qed.

Lemma py_round_ge_one f n : ge_one f -> py_round f = Ok n -> 1 <= n.
Proof.
  destruct f as [| | |[|] m e]; try contradiction.
  cbn [ge_one py_round]. intros Hge H. inversion H; subst; clear H.
  destruct (Z.leb_spec 0 e) as [He|He].
  - rewrite Z.shiftl_mul_pow2 by assumption.
    assert (0 < 2 ^ e) by (apply Z.pow_pos_nonneg; lia). nia.
  - pose proof (round_half_even_bounds (Z.pos m) (- e) ltac:(lia)) as Hr.
    assert (1 <= Z.pos m / 2 ^ (- e)).
    { apply Z.div_le_lower_bound; [apply Z.pow_pos_nonneg; lia|lia]. }
    lia.
Qed.

(** [float(1)] is [2^52 * 2^-52]. *)
Lemma float_of_int_one :
  float_of_int 1 = Ok (S754_finite false 4503599627370496 (-52)).
Proof. vm_compute. reflexivity. Qed.

Lemma float_mul_int_one_ge_one target p n :
  ge_one target -> float_mul_int target 1 = Ok p -> py_round p = Ok n ->
  1 <= n.
Proof.
  intros Hge. unfold float_mul_int. rewrite float_of_int_one. cbn [bind].
  destruct target as [| | |[|] m e]; try contradiction.
  cbn [ge_one] in Hge. unfold SFmul. cbn [xorb].
  fold (round_float false (Z.pos (m * 4503599627370496)) (e + -52) loc_Exact).
  intros H; inversion H; subst; clear H.
  assert (H52 : 4503599627370496 = 2 ^ 52) by reflexivity.
  destruct (round_float_ge_one (Z.pos (m * 4503599627370496)) (e + -52)
              loc_Exact) as [E|E].
  - lia.
  - rewrite Pos2Z.inj_mul. change (Z.pos 4503599627370496) with (2 ^ 52).
    destruct (Z_le_gt_dec (- e) 0) as [Hle|Hgt].
    + assert (2 ^ (- (e + -52)) <= 2 ^ 52) by (apply Z.pow_le_mono_r; lia).
      assert (0 < 2 ^ 52) by reflexivity. nia.
    + replace (- (e + -52)) with (- e + 52) by lia.
      rewrite Z.pow_add_r by lia.
      assert (0 < 2 ^ 52) by reflexivity. nia.
  - rewrite E. discriminate.
  - apply py_round_ge_one. exact E.
Qed.

Lemma py_range_cons lo hi :
  lo < hi -> py_range lo hi = lo :: py_range (lo + 1) hi.
Proof.
  intros H. unfold py_range.
  replace (Z.to_nat (hi - lo)) with (S (Z.to_nat (hi - (lo + 1)))) by lia.
  cbn [seq map]. f_equal; [lia|].
  rewrite <- seq_shift, map_map. apply map_ext. intros i. lia.
Qed.

(** For a target that is at least one, the first denominator, 1, is
    recorded with a numerator that is at least one. *)
Lemma search_step_first target cs ss st' :
  finite_pos target = true -> ge_one target ->
  search_step target (cs, ss) 1 = Ok st' ->
  exists c, fst st' = cs ++ [c] /\ den c = 1 /\ 1 <= num c.
Proof.
  intros Ht Hge. unfold search_step.
  destruct (float_mul_int target 1) as [p|] eqn:Ep; cbn [bind];
    [|discriminate].
  destruct (py_round p) as [n|] eqn:En; cbn [bind]; [|discriminate].
  pose proof (float_mul_int_one_ge_one target p n Hge Ep En) as Hn.
  destruct (Z.eqb_spec n 0); [lia|].
  rewrite Z.gcd_1_r. cbn [Z.eqb Pos.eqb negb].
  destruct (int_truediv n 1) as [q|]; cbn [bind]; [|discriminate].
  intros H; inversion H; subst; clear H.
  eexists; split; [reflexivity|]. simpl. split; [reflexivity|assumption].
Qed.

Lemma search_loop_first M target cs ss :
  1 <= M -> finite_pos target = true -> ge_one target ->
  search_loop M target = Ok (cs, ss) ->
  exists c rest, cs = c :: rest /\ den c = 1 /\ 1 <= num c.
Proof.
  intros HM Ht Hge. unfold search_loop.
  rewrite py_range_cons by lia. cbn [search_from].
  destruct (search_step target ([], []) 1) as [[cs1 ss1]|] eqn:E1;
    cbn [bind]; [|discriminate].
  destruct (search_step_first target [] [] _ Ht Hge E1)
    as (c & Hc & Hd & Hn).
  simpl in Hc. subst cs1. intros H.
  apply search_from_spec in H; auto.
  - destruct H as (new & -> & _). exists c, new. auto.
  - rewrite Forall_forall. intros d Hd'. apply py_range_spec in Hd'. lia.
  - apply py_range_sorted.
Qed.

(** * The properties of the specification *)

(** ** C1: the list returned in normal mode *)

(** C1. When [approximate_top5 a b] returns with mode [None] (normal mode),
    the returned list is the first [min 5 n] elements of a permutation of
    the [n] generated candidates that is sorted by non-decreasing error,
    equal errors being ordered by generation order, which is the order of
    increasing denominators; every returned pair has gcd 1. *)
Theorem C1_normal_mode_top5 M T a b l :
  0 < a -> 0 < b ->
  approximate_top5 M T a b = Ok (ModeNone, l) ->
  exists target cs ss sorted,
    int_truediv a b = Ok target /\
    search_loop M target = Ok (cs, ss) /\
    StronglySorted Z.lt (map den cs) /\
    Permutation sorted cs /\
    StronglySorted err_le sorted /\
    StronglySorted ranked_before sorted /\
    l = firstn (Nat.min 5 (List.length cs)) sorted /\
    Forall (fun c => Z.gcd (num c) (den c) = 1) l.
Proof.
  intros Ha Hb H.
  destruct (approximate_top5_inv _ _ _ _ _ _ Ha Hb H)
    as (target & cs & ss & Et & Ht & El & [[_ Hlim]|[Hne Hr]]).
  - exfalso. destruct (a <? b).
    + apply limit_small_inv in Hlim.
      destruct Hlim as (? & ? & ? & _ & _ & _ & Hm & _). discriminate.
    + apply limit_large_inv in Hlim.
      destruct Hlim as (? & ? & ? & _ & _ & _ & Hm & _). discriminate.
  - destruct (search_loop_spec M target cs ss Ht El) as (_ & Hg & _ & Hs).
    assert (Hl : l = firstn 5 (sort_by_err cs)).
    { rewrite <- rank_snd with (T := T) (ss := ss). rewrite Hr. reflexivity. }
    exists target, cs, ss, (sort_by_err cs).
    split; [assumption|]. split; [assumption|]. split; [assumption|].
    split; [apply sort_by_err_perm|].
    split; [apply sort_by_err_sorted;
              [apply (Forall_generated_nonneg target)|]; assumption|].
    split; [apply sort_by_err_ranked;
              [apply (Forall_generated_nonneg target)|]; assumption|].
    split.
    + rewrite <- sort_by_err_length, firstn_min_length. assumption.
    + rewrite Forall_forall in Hg |- *. intros c Hc. subst l.
      apply firstn_In in Hc.
      apply (Permutation_in _ (sort_by_err_perm cs)) in Hc.
      destruct (Hg c Hc) as (_ & _ & Hgcd & _). assumption.
Qed.

Lemma C1_normal_mode_top5_witness :
  exists target cs ss sorted,
    int_truediv 16 9 = Ok target /\
    search_loop 64 target = Ok (cs, ss) /\
    StronglySorted Z.lt (map den cs) /\
    Permutation sorted cs /\
    StronglySorted err_le sorted /\
    StronglySorted ranked_before sorted /\
    top5_16_9 = firstn (Nat.min 5 (List.length cs)) sorted /\
    Forall (fun c => Z.gcd (num c) (den c) = 1) top5_16_9.
Proof.
  apply (C1_normal_mode_top5 64 default_THRESHOLD 16 9 top5_16_9);
    [lia|lia|vm_compute; reflexivity].
Defined.

(** ** C2: the four modes *)

(** C2. Whatever [approximate_top5 a b] returns on positive integers, its
    mode is one of the four tags: [None] (normal), a candidate
    (single_digit_preferred), ["limit_small"] or ["limit_large"]. *)
Theorem C2_mode_is_one_of_four M T a b m l :
  0 < a -> 0 < b ->
  approximate_top5 M T a b = Ok (m, l) ->
  exists t, tag_of_mode m = Some t.
Proof.
  intros Ha Hb H.
  destruct (approximate_top5_inv _ _ _ _ _ _ Ha Hb H)
    as (target & cs & ss & _ & _ & _ & [[_ Hlim]|[_ Hr]]).
  - destruct (a <? b).
    + apply limit_small_inv in Hlim.
      destruct Hlim as (? & ? & ? & _ & _ & _ & -> & _).
      exists TagLimitSmall; reflexivity.
    + apply limit_large_inv in Hlim.
      destruct Hlim as (? & ? & ? & _ & _ & _ & -> & _).
      exists TagLimitLarge; reflexivity.
  - assert (Hm : m = fst (rank T cs ss)) by (rewrite Hr; reflexivity).
    rewrite rank_fst in Hm. subst m.
    destruct (sort_by_err ss) as [|s ?]; [exists TagNormal; reflexivity|].
    destruct (_ && _);
      [exists TagSingleDigitPreferred|exists TagNormal]; reflexivity.
Qed.

Lemma C2_mode_is_one_of_four_witness :
  exists t, tag_of_mode (ModeStr "limit_small") = Some t.
Proof.
  apply (C2_mode_is_one_of_four 64 default_THRESHOLD 1 1000
           (ModeStr "limit_small") [mkCand 1 1000 (S754_zero false)]);
    [lia|lia|vm_compute; reflexivity].
Defined.

(** ** C3: the limit modes *)

(** C3, as stated, fails when [b / a] overflows: for [a = 1] and
    [b = 2^1024] the loop records no candidate and [a < b], but the call
    raises [OverflowError] instead of returning in mode limit_small. *)
Lemma C3_limit_small_overflow :
  exists target ss,
    int_truediv 1 (2 ^ 1024) = Ok target /\
    search_loop 64 target = Ok ([], ss) /\
    1 < 2 ^ 1024 /\
    approximate_top5 64 default_THRESHOLD 1 (2 ^ 1024) = Raise OverflowError.
Proof.
  eexists _, _. split; [vm_compute; reflexivity|].
  split; [vm_compute; reflexivity|].
  split; [reflexivity|vm_compute; reflexivity].
Qed.

(** C3, amended. When the loop records no candidate (with
    [1 <= MAX_DENOMINATOR]) then [a < b], and if [b / a] does not overflow
    the call returns mode ["limit_small"] with the single candidate
    [(1, max(1, round(b / a)), |1/den - target|)]; an empty candidate list
    never comes with [a >= b].  [approximate_top5(1, 1000)] with
    [MAX_DENOMINATOR = 64] returns limit_small with the candidate
    [1:1000]. *)
Theorem C3_limit_small M T a b target ss :
  1 <= M -> 0 < a -> 0 < b ->
  int_truediv a b = Ok target ->
  search_loop M target = Ok ([], ss) ->
  a < b /\
  (forall q, int_truediv b a = Ok q ->
     exists r i,
       py_round q = Ok r /\ int_truediv 1 (Z.max 1 r) = Ok i /\
       approximate_top5 M T a b =
         Ok (ModeStr "limit_small",
             [mkCand 1 (Z.max 1 r) (float_abs (float_sub i target))])) /\
  approximate_top5 64 T 1 1000 =
    Ok (ModeStr "limit_small", [mkCand 1 1000 (S754_zero false)]).
Proof.
  intros HM Ha Hb Et El.
  pose proof (int_truediv_finite_pos a b target Ha Hb Et) as Ht.
  assert (Hab : a < b).
  { destruct (Z_lt_le_dec a b) as [|Hle]; [assumption|exfalso].
    pose proof (int_truediv_ge_one a b target ltac:(lia) Et) as Hge.
    destruct (search_loop_first M target [] ss HM Ht Hge El)
      as (c & rest & Hc & _). discriminate. }
  split; [assumption|]. split.
  - intros q Eq.
    destruct (int_truediv_round_ok b a q Hb Ha Eq) as [r Er].
    destruct (int_truediv_one_total (Z.max 1 r) ltac:(lia)) as [i Ei].
    exists r, i. split; [assumption|]. split; [assumption|].
    unfold approximate_top5. rewrite Et. cbn [bind]. rewrite El. cbn [bind].
    destruct (Z.ltb_spec a b); [|lia].
    unfold limit_small. rewrite Eq. cbn [bind]. rewrite Er. cbn [bind].
    rewrite Ei. reflexivity.
  - vm_compute. reflexivity.
Qed.

Lemma C3_limit_small_witness :
  1 < 1000 /\
  (forall q, int_truediv 1000 1 = Ok q ->
     exists r i,
       py_round q = Ok r /\ int_truediv 1 (Z.max 1 r) = Ok i /\
       approximate_top5 64 default_THRESHOLD 1 1000 =
         Ok (ModeStr "limit_small",
             [mkCand 1 (Z.max 1 r)
                (float_abs (float_sub i target_1_1000))])) /\
  approximate_top5 64 default_THRESHOLD 1 1000 =
    Ok (ModeStr "limit_small", [mkCand 1 1000 (S754_zero false)]).
Proof.
  apply (C3_limit_small 64 default_THRESHOLD 1 1000 target_1_1000 []);
    [lia|lia|lia|vm_compute; reflexivity|vm_compute; reflexivity].
Defined.

(** ** C4: the single-digit preference *)

(** C4. With a non-empty candidate list and a non-empty single-digit
    bucket, [approximate_top5 a b] returns the top 5 of the sorted
    candidates, and as mode the best single-digit candidate exactly when its
    error is strictly below [SINGLE_DIGIT_THRESHOLD] and its pair differs
    from the pair of the global best; the mode is [None] otherwise. *)
Theorem C4_single_digit_preference M T a b target cs ss :
  0 < a -> 0 < b ->
  int_truediv a b = Ok target ->
  search_loop M target = Ok (cs, ss) ->
  cs <> [] -> ss <> [] ->
  ss = filter single_digit cs /\
  exists s g m,
    best_of ss s /\ best_of cs g /\
    approximate_top5 M T a b = Ok (m, firstn 5 (sort_by_err cs)) /\
    (m = ModeCand s \/ m = ModeNone) /\
    (m = ModeCand s <->
     float_lt (err s) T = true /\ (num s, den s) <> (num g, den g)).
Proof.
  intros Ha Hb Et El Hcs Hss.
  pose proof (int_truediv_finite_pos a b target Ha Hb Et) as Ht.
  destruct (search_loop_spec M target cs ss Ht El) as (Hf & Hg & _ & Hs).
  split; [assumption|].
  destruct (sort_by_err ss) as [|s srest] eqn:Es.
  { apply sort_by_err_nil in Es. contradiction. }
  destruct (sort_by_err cs) as [|g grest] eqn:Eg.
  { apply sort_by_err_nil in Eg. contradiction. }
  exists s, g, (fst (rank T cs ss)).
  split.
  { apply (sort_by_err_head_best target ss s srest); auto; subst ss.
    - apply Forall_filter; assumption.
    - apply filter_sorted_den; assumption. }
  split.
  { apply (sort_by_err_head_best target cs g grest); auto. }
  split.
  { unfold approximate_top5. rewrite Et. cbn [bind]. rewrite El. cbn [bind].
    destruct cs as [|c cs']; [contradiction|].
    rewrite <- Eg, <- rank_snd with (T := T) (ss := ss).
    destruct (rank T (c :: cs') ss); reflexivity. }
  rewrite rank_fst, Es, Eg.
  unfold same_pair.
  destruct (float_lt (err s) T); simpl.
  - destruct (Z.eqb_spec (num s) (num g)) as [En|En];
      destruct (Z.eqb_spec (den s) (den g)) as [Ed|Ed]; simpl.
    + split; [right; reflexivity|].
      split; [discriminate|]. intros [_ Hne]. rewrite En, Ed in Hne.
      contradiction.
    + split; [left; reflexivity|].
      split; [intros _; split; [reflexivity|congruence]|reflexivity].
    + split; [left; reflexivity|].
      split; [intros _; split; [reflexivity|congruence]|reflexivity].
    + split; [left; reflexivity|].
      split; [intros _; split; [reflexivity|congruence]|reflexivity].
  - split; [right; reflexivity|].
    split; [discriminate|]. intros [Hlt _]. discriminate.
Qed.

Lemma C4_single_digit_preference_witness :
  singles_43_64 = filter single_digit cands_43_64 /\
  exists s g m,
    best_of singles_43_64 s /\ best_of cands_43_64 g /\
    approximate_top5 64 default_THRESHOLD 43 64 =
      Ok (m, firstn 5 (sort_by_err cands_43_64)) /\
    (m = ModeCand s \/ m = ModeNone) /\
    (m = ModeCand s <->
     float_lt (err s) default_THRESHOLD = true /\
     (num s, den s) <> (num g, den g)).
Proof.
  apply (C4_single_digit_preference 64 default_THRESHOLD 43 64
           target_43_64 cands_43_64 singles_43_64);
    [lia|lia|vm_compute; reflexivity|vm_compute; reflexivity
    |discriminate|discriminate].
Defined.

(** ** C5: the invariant of the returned candidates *)

(** C5, as stated, fails in limit mode: [approximate_top5(1, 1000)] with
    [MAX_DENOMINATOR = 64] returns the single candidate [1:1000], whose
    denominator is not in [1..64]. *)
Lemma C5_limit_denominator_out_of_range :
  exists m c,
    approximate_top5 64 default_THRESHOLD 1 1000 = Ok (m, [c]) /\
    ~ (1 <= den c <= 64).
Proof.
  exists (ModeStr "limit_small"), (mkCand 1 1000 (S754_zero false)).
  split; [vm_compute; reflexivity|simpl; lia].
Qed.

(** C5, amended. Every candidate returned by [approximate_top5 a b], in
    every mode, has a positive numerator, a positive denominator, gcd 1,
    and an error that is the non-negative float [|num/den - target|]; in
    the modes normal and single_digit_preferred its denominator is in
    [1..MAX_DENOMINATOR], and so is the highlighted candidate's.  In the
    limit modes the denominator is not bounded by [MAX_DENOMINATOR]. *)
Theorem C5_candidate_invariant M T a b m l :
  0 < a -> 0 < b ->
  approximate_top5 M T a b = Ok (m, l) ->
  exists target,
    int_truediv a b = Ok target /\
    Forall (generated target) l /\
    (tag_of_mode m = Some TagNormal \/
     tag_of_mode m = Some TagSingleDigitPreferred ->
     Forall (fun c => 1 <= den c <= M) l) /\
    (forall s, m = ModeCand s -> generated target s /\ 1 <= den s <= M).
Proof.
  intros Ha Hb H.
  destruct (approximate_top5_inv _ _ _ _ _ _ Ha Hb H)
    as (target & cs & ss & Et & Ht & El & [[_ Hlim]|[Hne Hr]]).
  - exists target. split; [assumption|].
    destruct (a <? b).
    + apply limit_small_inv in Hlim.
      destruct Hlim as (q & r & i & _ & _ & Hi & -> & ->).
      split; [|split].
      * constructor; [|constructor].
        apply generated_limit_small; assumption.
      * simpl. intros [?|?]; discriminate.
      * intros s ?; discriminate.
    + apply limit_large_inv in Hlim.
      destruct Hlim as (q & r & v & _ & _ & Hv & -> & ->).
      split; [|split].
      * constructor; [|constructor].
        apply generated_limit_large; assumption.
      * simpl. intros [?|?]; discriminate.
      * intros s ?; discriminate.
  - destruct (search_loop_spec M target cs ss Ht El) as (Hf & Hg & Hd & Hs).
    assert (Hl : l = firstn 5 (sort_by_err cs)).
    { rewrite <- rank_snd with (T := T) (ss := ss). rewrite Hr. reflexivity. }
    assert (Hin : forall c, In c l -> In c cs).
    { intros c Hc. subst l. apply firstn_In in Hc.
      apply (Permutation_in _ (sort_by_err_perm cs)) in Hc. assumption. }
    exists target. split; [assumption|].
    rewrite Forall_forall in Hg, Hd.
    split; [|split].
    + rewrite Forall_forall. intros c Hc. apply Hg, Hin, Hc.
    + intros _. rewrite Forall_forall. intros c Hc. apply Hd, Hin, Hc.
    + intros s Hm.
      assert (Hm' : fst (rank T cs ss) = ModeCand s) by (rewrite Hr; exact Hm).
      rewrite rank_fst in Hm'.
      destruct (sort_by_err ss) as [|s0 srest] eqn:Es; [discriminate|].
      destruct (_ && _); [|discriminate].
      inversion Hm'; subst s0.
      assert (Hs0 : In s cs).
      { assert (In s ss).
        { apply (Permutation_in _ (sort_by_err_perm ss)).
          rewrite Es. left; reflexivity. }
        subst ss. apply filter_In in H0. tauto. }
      split; [apply Hg|apply Hd]; assumption.
Qed.

Lemma C5_candidate_invariant_witness :
  exists target,
    int_truediv 16 9 = Ok target /\
    Forall (generated target) top5_16_9 /\
    (tag_of_mode ModeNone = Some TagNormal \/
     tag_of_mode ModeNone = Some TagSingleDigitPreferred ->
     Forall (fun c => 1 <= den c <= 64) top5_16_9) /\
    (forall s, ModeNone = ModeCand s ->
               generated target s /\ 1 <= den s <= 64).
Proof.
  apply (C5_candidate_invariant 64 default_THRESHOLD 16 9 ModeNone top5_16_9);
    [lia|lia|vm_compute; reflexivity].
Defined.

(** ** C6: totality *)

(** C6, as stated, fails on large ints: [2^1024 / 1] is too large for a
    float, and the call raises [OverflowError]. *)
Lemma C6_overflow_raises :
  0 < 2 ^ 1024 /\ 0 < 1 /\
  approximate_top5 64 default_THRESHOLD (2 ^ 1024) 1 = Raise OverflowError.
Proof.
  split; [reflexivity|]. split; [reflexivity|vm_compute; reflexivity].
Qed.

(** C6, amended. On positive ints, [approximate_top5] never divides by
    zero and never rounds a NaN: the only exception it can raise is
    [OverflowError]; whenever it returns, its list is not empty; and it does
    return when both ints are below [2^960] and [MAX_DENOMINATOR] is below
    [2^53]. *)
Theorem C6_total_without_overflow M T a b :
  0 < a -> 0 < b ->
  (forall e, approximate_top5 M T a b = Raise e -> e = OverflowError) /\
  (forall m l, approximate_top5 M T a b = Ok (m, l) -> l <> []) /\
  (M < 2 ^ 53 -> a < 2 ^ 960 -> b < 2 ^ 960 ->
   exists m l, approximate_top5 M T a b = Ok (m, l) /\ l <> []).
Proof.
  intros Ha Hb. split; [|split].
  - intros e. apply approximate_top5_raise; assumption.
  - intros m l H.
    destruct (approximate_top5_inv _ _ _ _ _ _ Ha Hb H)
      as (target & cs & ss & _ & _ & _ & [[_ Hlim]|[Hne Hr]]).
    + destruct (a <? b).
      * apply limit_small_inv in Hlim.
        destruct Hlim as (? & ? & ? & _ & _ & _ & _ & ->). discriminate.
      * apply limit_large_inv in Hlim.
        destruct Hlim as (? & ? & ? & _ & _ & _ & _ & ->). discriminate.
    + assert (Hl : l = snd (rank T cs ss)) by (rewrite Hr; reflexivity).
      rewrite rank_snd in Hl. subst l.
      destruct (sort_by_err cs) eqn:E; [|discriminate].
      apply sort_by_err_nil in E. contradiction.
  - intros HM Ha' Hb'. apply approximate_top5_total; lia.
Qed.

Lemma C6_total_without_overflow_witness :
  (forall e, approximate_top5 64 default_THRESHOLD 16 9 = Raise e ->
             e = OverflowError) /\
  (forall m l, approximate_top5 64 default_THRESHOLD 16 9 = Ok (m, l) ->
               l <> []) /\
  (64 < 2 ^ 53 -> 16 < 2 ^ 960 -> 9 < 2 ^ 960 ->
   exists m l, approximate_top5 64 default_THRESHOLD 16 9 = Ok (m, l) /\
               l <> []).
Proof.
  apply (C6_total_without_overflow 64 default_THRESHOLD 16 9); lia.
Defined.

(** ** C7: the shortcut of the callers *)

(** C7, as stated, fails when the call raises before the shortcut is
    tested: for [a = 1] and [b = 2^1024] the condition of the shortcut
    holds, but the caller shows no fixed ratio: [approximate_top5] raises
    [OverflowError]. *)
Lemma C7_shortcut_not_reached :
  shortcut 64 1 (2 ^ 1024) = true /\
  present 64 default_THRESHOLD 1 (2 ^ 1024) = Raise OverflowError.
Proof. split; vm_compute; reflexivity. Qed.

(** C7, amended. Whenever the call of [approximate_top5] returns, the
    caller shows the fixed ratio exactly when one of [a], [b] is 1 and the
    other exceeds [MAX_DENOMINATOR]: it then shows [1:b] (when [a = 1]) or
    [a:1], with the error text [=0], whatever the call returned; otherwise
    it shows the result of the call.  The call does return when [a] and [b]
    are below [2^960] and [MAX_DENOMINATOR] is below [2^53]. *)
Theorem C7_shortcut M T a b :
  0 < a -> 0 < b ->
  (forall m l,
     approximate_top5 M T a b = Ok (m, l) ->
     ((a = 1 /\ M < b) \/ (b = 1 /\ M < a) ->
      present M T a b =
        Ok (if a =? 1 then FixedRatio 1 b "=0" else FixedRatio a 1 "=0")) /\
     (~ ((a = 1 /\ M < b) \/ (b = 1 /\ M < a)) ->
      exists d, present M T a b = Ok d /\
                (d = RankedResults (highlight_of m) (firstn 5 l) \/
                 exists c, l = [c] /\ d = LimitResult c))) /\
  (M < 2 ^ 53 -> a < 2 ^ 960 -> b < 2 ^ 960 ->
   exists m l, approximate_top5 M T a b = Ok (m, l)).
Proof.
  intros Ha Hb. split.
  - intros m l H.
    assert (Hs : shortcut M a b = true <->
                 (a = 1 /\ M < b) \/ (b = 1 /\ M < a)).
    { unfold shortcut.
      rewrite orb_true_iff, !andb_true_iff, !Z.eqb_eq, !Z.ltb_lt.
      reflexivity. }
    split.
    + intros Hc. apply Hs in Hc. unfold present. rewrite H. cbn [bind].
      rewrite Hc. destruct (a =? 1); reflexivity.
    + intros Hc. unfold present. rewrite H. cbn [bind].
      destruct (shortcut M a b) eqn:E; [exfalso; apply Hc, Hs; reflexivity|].
      destruct (approximate_top5_inv _ _ _ _ _ _ Ha Hb H)
        as (target & cs & ss & _ & _ & _ & [[_ Hlim]|[_ Hr]]).
      * destruct (a <? b).
        -- apply limit_small_inv in Hlim.
           destruct Hlim as (? & ? & ? & _ & _ & _ & -> & ->).
           eexists; split; [reflexivity|]. right. eauto.
        -- apply limit_large_inv in Hlim.
           destruct Hlim as (? & ? & ? & _ & _ & _ & -> & ->).
           eexists; split; [reflexivity|]. right. eauto.
      * assert (Hm : m = fst (rank T cs ss)) by (rewrite Hr; reflexivity).
        rewrite rank_fst in Hm.
        destruct (sort_by_err ss) as [|s ?].
        -- subst m. eexists; split; [reflexivity|]. left; reflexivity.
        -- destruct (_ && _); subst m;
             (eexists; split; [reflexivity|]; left; reflexivity).
  - intros HM Ha' Hb'.
    destruct (approximate_top5_total M T a b HM) as (m & l & H & _);
      [lia|lia|eauto].
Qed.

Lemma C7_shortcut_witness :
  (forall m l,
     approximate_top5 64 default_THRESHOLD 1 65 = Ok (m, l) ->
     ((1 = 1 /\ 64 < 65) \/ (65 = 1 /\ 64 < 1) ->
      present 64 default_THRESHOLD 1 65 =
        Ok (if 1 =? 1 then FixedRatio 1 65 "=0" else FixedRatio 1 1 "=0")) /\
     (~ ((1 = 1 /\ 64 < 65) \/ (65 = 1 /\ 64 < 1)) ->
      exists d, present 64 default_THRESHOLD 1 65 = Ok d /\
                (d = RankedResults (highlight_of m) (firstn 5 l) \/
                 exists c, l = [c] /\ d = LimitResult c))) /\
  (64 < 2 ^ 53 -> 1 < 2 ^ 960 -> 65 < 2 ^ 960 ->
   exists m l, approximate_top5 64 default_THRESHOLD 1 65 = Ok (m, l)).
Proof.
  apply (C7_shortcut 64 default_THRESHOLD 1 65); lia.
Defined.

(** ** C8: 2:4 and 1:2 *)

(** C8. [2/4] and [1/2] are the same float, and [approximate_top5(2, 4)]
    and [approximate_top5(1, 2)] give the same result, under every
    configuration; under the default one both return. *)
Theorem C8_same_result_2_4_and_1_2 :
  int_truediv 2 4 = int_truediv 1 2 /\
  (forall M T, approximate_top5 M T 2 4 = approximate_top5 M T 1 2) /\
  exists r, approximate_top5 64 default_THRESHOLD 1 2 = Ok r.
Proof.
  split; [vm_compute; reflexivity|].
  split.
  - intros M T. unfold approximate_top5.
    replace (int_truediv 2 4) with (int_truediv 1 2)
      by (vm_compute; reflexivity).
    destruct (int_truediv 1 2) as [target|]; cbn [bind]; [|reflexivity].
    destruct (search_loop M target) as [[cs ss]|]; cbn [bind]; [|reflexivity].
    destruct cs; [|reflexivity].
    change (2 <? 4) with true. change (1 <? 2) with true. cbv iota.
    unfold limit_small.
    replace (int_truediv 4 2) with (int_truediv 2 1)
      by (vm_compute; reflexivity).
    reflexivity.
  - eexists. vm_compute. reflexivity.
Qed.

(** ** C9: limit_large is unreachable *)

(** C9. For [a >= b >= 1] and [1 <= MAX_DENOMINATOR], a completed search
    has a non-empty candidate list: its first candidate has denominator 1,
    a numerator that is at least 1, and gcd 1.  So [approximate_top5 a b]
    never returns mode ["limit_large"].  The search does complete when
    [a < 2^960] and [MAX_DENOMINATOR < 2^53]. *)
Theorem C9_limit_large_unreachable M T a b :
  1 <= M -> 0 < b -> b <= a ->
  (forall target cs ss,
     int_truediv a b = Ok target ->
     search_loop M target = Ok (cs, ss) ->
     exists c rest,
       cs = c :: rest /\ den c = 1 /\ 1 <= num c /\
       Z.gcd (num c) (den c) = 1) /\
  (forall m l, approximate_top5 M T a b = Ok (m, l) ->
               tag_of_mode m <> Some TagLimitLarge) /\
  (M < 2 ^ 53 -> a < 2 ^ 960 ->
   exists target cs ss,
     int_truediv a b = Ok target /\ search_loop M target = Ok (cs, ss)).
Proof.
  intros HM Hb Hab.
  assert (Hloop : forall target cs ss,
    int_truediv a b = Ok target ->
    search_loop M target = Ok (cs, ss) ->
    exists c rest,
      cs = c :: rest /\ den c = 1 /\ 1 <= num c /\
      Z.gcd (num c) (den c) = 1).
  { intros target cs ss Et El.
    pose proof (int_truediv_finite_pos a b target ltac:(lia) Hb Et) as Ht.
    pose proof (int_truediv_ge_one a b target ltac:(lia) Et) as Hge.
    destruct (search_loop_first M target cs ss HM Ht Hge El)
      as (c & rest & Hc & Hd & Hn).
    exists c, rest. repeat split; auto.
    rewrite Hd. apply Z.gcd_1_r. }
  split; [exact Hloop|]. split.
  - intros m l H.
    assert (Ha : 0 < a) by lia.
    destruct (approximate_top5_inv _ _ _ _ _ _ Ha Hb H)
      as (target & cs & ss & Et & Ht & El & [[Hnil _]|[Hne Hr]]).
    + destruct (Hloop target cs ss Et El) as (c & rest & Hc & _).
      subst cs. discriminate.
    + assert (Hm : m = fst (rank T cs ss)) by (rewrite Hr; reflexivity).
      rewrite rank_fst in Hm. subst m.
      destruct (sort_by_err ss) as [|s ?]; [discriminate|].
      destruct (_ && _); discriminate.
  - intros HM' Ha.
    destruct (int_truediv_total a b ltac:(lia) Hb) as (target & Et & Hfit).
    pose proof (int_truediv_finite_pos a b target ltac:(lia) Hb Et) as Ht.
    destruct (search_loop_total M target 961 Ht Hfit ltac:(lia) HM')
      as [[cs ss] El].
    exists target, cs, ss. auto.
Qed.

Lemma C9_limit_large_unreachable_witness :
  (forall target cs ss,
     int_truediv 16 9 = Ok target ->
     search_loop 64 target = Ok (cs, ss) ->
     exists c rest,
       cs = c :: rest /\ den c = 1 /\ 1 <= num c /\
       Z.gcd (num c) (den c) = 1) /\
  (forall m l, approximate_top5 64 default_THRESHOLD 16 9 = Ok (m, l) ->
               tag_of_mode m <> Some TagLimitLarge) /\
  (64 < 2 ^ 53 -> 16 < 2 ^ 960 ->
   exists target cs ss,
     int_truediv 16 9 = Ok target /\ search_loop 64 target = Ok (cs, ss)).
Proof.
  apply (C9_limit_large_unreachable 64 default_THRESHOLD 16 9); lia.
Defined.

(** ** C10: a zero threshold *)

(** C10. With [SINGLE_DIGIT_THRESHOLD = 0], whatever [approximate_top5]
    returns on positive integers is not in mode single_digit_preferred:
    no error is strictly below zero. *)
Theorem C10_zero_threshold_disables_preference M sgn a b m l :
  0 < a -> 0 < b ->
  approximate_top5 M (S754_zero sgn) a b = Ok (m, l) ->
  tag_of_mode m <> Some TagSingleDigitPreferred.
Proof.
  intros Ha Hb H.
  destruct (approximate_top5_inv _ _ _ _ _ _ Ha Hb H)
    as (target & cs & ss & Et & Ht & El & [[_ Hlim]|[Hne Hr]]).
  - destruct (a <? b).
    + apply limit_small_inv in Hlim.
      destruct Hlim as (? & ? & ? & _ & _ & _ & -> & _). discriminate.
    + apply limit_large_inv in Hlim.
      destruct Hlim as (? & ? & ? & _ & _ & _ & -> & _). discriminate.
  - destruct (search_loop_spec M target cs ss Ht El) as (Hf & Hg & _ & _).
    assert (Hm : m = fst (rank (S754_zero sgn) cs ss))
      by (rewrite Hr; reflexivity).
    rewrite rank_fst in Hm.
    destruct (sort_by_err ss) as [|s srest] eqn:Es; [subst m; discriminate|].
    assert (Hs : err_nonneg s).
    { assert (Hin : In s ss).
      { apply (Permutation_in _ (sort_by_err_perm ss)).
        rewrite Es. left; reflexivity. }
      subst ss. apply filter_In in Hin. destruct Hin as [Hin _].
      rewrite Forall_forall in Hg.
      apply (generated_err_nonneg target), Hg, Hin. }
    rewrite (float_lt_zero (err s) sgn Hs) in Hm. subst m. discriminate.
Qed.

Lemma C10_zero_threshold_disables_preference_witness :
  tag_of_mode ModeNone <> Some TagSingleDigitPreferred.
Proof.
  apply (C10_zero_threshold_disables_preference 64 false 43 64 ModeNone
           (firstn 5 (sort_by_err cands_43_64)));
    [lia|lia|vm_compute; reflexivity].
Defined.

(** * Further properties: the configuration *)

Section ConfigurationFacts.

Variable float_of_str : string -> option float.

Lemma validate_max_denominator_cases o :
  (exists n, 1 <= n /\ (o = PyInt n \/ (o = PyBool true /\ n = 1)) /\
             validate_max_denominator o = (n, [])) \/
  ((forall n, o = PyInt n -> n < 1) /\ o <> PyBool true /\
   validate_max_denominator o =
     (default_MAX_DENOMINATOR, [ResetMaxDenominator])).
Proof.
  destruct o as [n|[|]|x|s|]; simpl.
  - destruct (Z.ltb_spec n 1).
    + right. repeat split; try discriminate.
      intros n' H'; inversion H'; subst; assumption.
    + left. exists n. repeat split; auto.
  - left. exists 1. repeat split; auto. lia.
  - right. repeat split; discriminate.
  - right. repeat split; discriminate.
  - right. repeat split; discriminate.
  - right. repeat split; discriminate.
Qed.

Lemma validate_threshold_cases o T w :
  validate_threshold float_of_str o = Ok (T, w) ->
  (py_float float_of_str o = Ok T /\ w = [] /\
   float_le (S754_zero false) T = true /\ float_le T float_one = true) \/
  (T = default_THRESHOLD /\ w = [ResetThreshold] /\
   forall v, py_float float_of_str o = Ok v ->
             float_le (S754_zero false) v && float_le v float_one = false).
Proof.
  unfold validate_threshold.
  destruct (py_float float_of_str o) as [v|e] eqn:E.
  - destruct (float_le (S754_zero false) v && float_le v float_one) eqn:Er;
      simpl; intros H; inversion H; subst.
    + left. apply andb_true_iff in Er. tauto.
    + right. repeat split. intros v' Hv; inversion Hv; subst; assumption.
  - destruct e; intros H; inversion H; subst; right; repeat split;
      intros v' Hv; discriminate.
Qed.

End ConfigurationFacts.

Section ValidatedConfiguration.

Variable float_of_str : string -> option float.

Lemma validate_config_inv m t cfg :
  validate_config float_of_str m t = Ok cfg ->
  exists M w1 T w2,
    validate_max_denominator m = (M, w1) /\
    validate_threshold float_of_str t = Ok (T, w2) /\
    cfg = mkConfig M T (w1 ++ w2).
Proof.
  unfold validate_config.
  destruct (validate_max_denominator m) as [M w1].
  destruct (validate_threshold float_of_str t) as [[T w2]|e]; cbn [bind];
    intros H; inversion H; subst.
  exists M, w1, T, w2. auto.
Qed.

Lemma validated_bound m t cfg :
  validate_config float_of_str m t = Ok cfg ->
  1 <= max_denominator cfg.
Proof.
  intros H.
  destruct (validate_config_inv m t cfg H)
    as (M & w1 & T & w2 & HM & _ & ->).
  cbn [max_denominator].
  destruct (validate_max_denominator_cases m)
    as [(n & Hn & _ & E)|(_ & _ & E)]; rewrite E in HM; inversion HM; subst.
  - assumption.
  - unfold default_MAX_DENOMINATOR. lia.
Qed.

Lemma validated_range m t cfg :
  validate_config float_of_str m t = Ok cfg ->
  float_le (S754_zero false) (single_digit_threshold cfg) = true /\
  float_le (single_digit_threshold cfg) float_one = true.
Proof.
  intros H.
  destruct (validate_config_inv m t cfg H)
    as (M & w1 & T & w2 & _ & HT & ->).
  cbn [single_digit_threshold].
  destruct (validate_threshold_cases float_of_str t T w2 HT)
    as [(_ & _ & H0 & H1)|(-> & _ & _)]; [auto|].
  split; reflexivity.
Qed.



(** X3. Validation is idempotent: validating the validated values again keeps
    them and records no warning. *)
Theorem validate_config_idempotent m t cfg :
  validate_config float_of_str m t = Ok cfg ->
  validate_config float_of_str
    (PyInt (max_denominator cfg)) (PyFloat (single_digit_threshold cfg)) =
  Ok (mkConfig (max_denominator cfg) (single_digit_threshold cfg) []).
Proof.
  intros H.
  pose proof (validated_bound m t cfg H) as HM.
  destruct (validated_range m t cfg H) as (H0 & H1).
  unfold validate_config, validate_max_denominator, validate_threshold.
  destruct (Z.ltb_spec (max_denominator cfg) 1); [lia|].
  cbn [py_float]. rewrite H0, H1. reflexivity.
Qed.

(** X4. Validation fails in one case only: the threshold is an int too large
    for a float, and the [OverflowError] of [float] is not caught. *)
Theorem validate_config_raises m t e :
  validate_config float_of_str m t = Raise e <->
  exists n, t = PyInt n /\ float_of_int n = Raise e.
Proof.
  unfold validate_config.
  destruct (validate_max_denominator m) as [M w1].
  unfold validate_threshold. split.
  - destruct t as [n|b|x|s|]; cbn [py_float].
    + destruct (float_of_int n) as [v|e'] eqn:E.
      * destruct (negb _); cbn [bind]; discriminate.
      * pose proof (float_of_int_raise n e' E) as ->.
        cbn [bind]. intros H; inversion H; subst. eauto.
    + destruct (negb _); cbn [bind]; discriminate.
    + destruct (negb _); cbn [bind]; discriminate.
    + destruct (float_of_str s); [destruct (negb _)|]; cbn [bind];
        discriminate.
    + cbn [bind]. discriminate.
  - intros (n & -> & E). cbn [py_float]. rewrite E.
    pose proof (float_of_int_raise n e E) as ->. reflexivity.
Qed.

(** X5. At most one warning is recorded per variable, the one for
    [MAX_DENOMINATOR] first. *)
Theorem validate_config_warnings m t cfg :
  validate_config float_of_str m t = Ok cfg ->
  config_warnings cfg = [] \/
  config_warnings cfg = [ResetMaxDenominator] \/
  config_warnings cfg = [ResetThreshold] \/
  config_warnings cfg = [ResetMaxDenominator; ResetThreshold].
Proof.
  intros H.
  destruct (validate_config_inv m t cfg H) as (M & w1 & T & w2 & HM & HT & ->).
  cbn [config_warnings].
  destruct (validate_max_denominator_cases m)
    as [(n & _ & _ & E)|(_ & _ & E)];
    rewrite E in HM; inversion HM; subst;
    destruct (validate_threshold_cases float_of_str t T w2 HT)
      as [(_ & -> & _)|(_ & -> & _)]; simpl; auto.
Qed.

End ValidatedConfiguration.



Lemma validate_config_idempotent_witness :
  validate_config no_float_of_str (PyInt 64) (PyFloat default_THRESHOLD) =
  Ok (mkConfig 64 default_THRESHOLD []).
Proof.
  apply (validate_config_idempotent no_float_of_str (PyStr "64") PyNone
           (mkConfig 64 default_THRESHOLD
              [ResetMaxDenominator; ResetThreshold])).
  reflexivity.
Defined.

Lemma validate_config_warnings_witness :
  [ResetMaxDenominator; ResetThreshold] = [] \/
  [ResetMaxDenominator; ResetThreshold] = [ResetMaxDenominator] \/
  [ResetMaxDenominator; ResetThreshold] = [ResetThreshold] \/
  [ResetMaxDenominator; ResetThreshold] =
    [ResetMaxDenominator; ResetThreshold].
Proof.
  apply (validate_config_warnings no_float_of_str (PyInt 0) (PyFloat S754_nan)
           (mkConfig 64 default_THRESHOLD
              [ResetMaxDenominator; ResetThreshold])).
  reflexivity.
Defined.

(** * Further properties: canonical floats

    The floats computed by the program are valid binary64 values: their
    mantissa and exponent are the canonical ones. *)

Module Validity.

Lemma fexp_mono x y : x <= y -> fexp prec emax x <= fexp prec emax y.
Proof. rewrite !fexp_eq. lia. Qed.

Lemma fexp_min z : -1074 <= fexp prec emax z.
Proof. rewrite fexp_eq. lia. Qed.

Lemma Zdigits2_ge_of_le x k : 0 <= k -> 2 ^ k <= x -> k + 1 <= Zdigits2 x.
Proof.
  intros Hk Hx.
  assert (0 < 2 ^ k) by (apply Z.pow_pos_nonneg; lia).
  destruct (Z_le_gt_dec (k + 1) (Zdigits2 x)) as [|Hgt]; [assumption|].
  exfalso. pose proof (Zdigits2_lt x ltac:(lia)) as Hlt.
  pose proof (Zdigits2_nonneg x).
  assert (2 ^ Zdigits2 x <= 2 ^ k) by (apply Z.pow_le_mono_r; lia).
  lia.
Qed.

Lemma Zdigits2_div_pow2_eq m n :
  0 <= n -> 1 <= m / 2 ^ n ->
  Zdigits2 (m / 2 ^ n) = Zdigits2 m - n.
Proof.
  intros Hn Hq.
  assert (Hp : 0 < 2 ^ n) by (apply Z.pow_pos_nonneg; lia).
  assert (Hm : 0 < m).
  { destruct (Z_lt_le_dec 0 m) as [|Hle]; [assumption|exfalso].
    assert (m / 2 ^ n <= 0) by (apply Z.div_le_upper_bound; lia). lia. }
  pose proof (Zdigits2_div_pow2 m n ltac:(lia) Hn) as Hle.
  pose proof (Zdigits2_pos (m / 2 ^ n) ltac:(lia)) as H1.
  pose proof (Zdigits2_ge m Hm) as Hlow.
  pose proof (Zdigits2_pos m Hm) as Hd.
  assert (Hdn : n < Zdigits2 m) by lia.
  assert (2 ^ (Zdigits2 m - 1 - n) <= m / 2 ^ n).
  { apply Z.div_le_lower_bound; [assumption|].
    rewrite <- Z.pow_add_r by lia.
    replace (n + (Zdigits2 m - 1 - n)) with (Zdigits2 m - 1) by lia.
    assumption. }
  pose proof (Zdigits2_ge_of_le (m / 2 ^ n) (Zdigits2 m - 1 - n)
                ltac:(lia) ltac:(assumption)).
  lia.
Qed.

(** When the exponent is not above the canonical one, [shr_fexp] brings it
    to the canonical one. *)
Lemma shr_fexp_canonical m e l :
  0 <= m -> e <= fexp prec emax (Zdigits2 m + e) ->
  let '(mrs, e') := shr_fexp prec emax m e l in
  0 <= shr_m mrs /\
  (1 <= shr_m mrs -> fexp prec emax (Zdigits2 (shr_m mrs) + e') = e') /\
  (shr_m mrs = 0 -> e' = -1074).
Proof.
  intros Hm He.
  pose proof (shr_fexp_spec m e l Hm) as H. cbv zeta in H.
  destruct (shr_fexp prec emax m e l) as [mrs e'].
  destruct H as [Ha Hb].
  pose proof (Zdigits2_nonneg m) as Hd.
  pose proof (Zdigits2_lt m Hm) as Hlt.
  destruct (Z_lt_le_dec 0 (fexp prec emax (Zdigits2 m + e) - e)) as [Hn|Hn].
  - destruct (Ha Hn) as [Hm' He']. rewrite Hm', He'.
    set (n := fexp prec emax (Zdigits2 m + e) - e) in *.
    assert (Hp : 0 < 2 ^ n) by (apply Z.pow_pos_nonneg; lia).
    split; [apply Z.div_pos; lia|]. split.
    + intros Hq. rewrite Zdigits2_div_pow2_eq by lia.
      replace (Zdigits2 m - n + (e + n)) with (Zdigits2 m + e) by lia.
      unfold n. lia.
    + intros Hq.
      assert (Hsmall : m < 2 ^ n).
      { destruct (Z_lt_le_dec m (2 ^ n)) as [|Hge]; [assumption|exfalso].
        assert (1 <= m / 2 ^ n) by (apply Z.div_le_lower_bound; lia). lia. }
      assert (Hdn : Zdigits2 m <= n).
      { apply Zdigits2_le_of_lt; lia. }
      unfold n in *. rewrite fexp_eq in *. lia.
  - destruct (Hb Hn) as [Hm' He']. rewrite Hm', He'.
    split; [assumption|]. split.
    + intros _. lia.
    + intros ->. simpl Zdigits2 in *. rewrite fexp_eq in *. lia.
Qed.

Lemma round_float_valid s m e l :
  0 <= m -> e <= fexp prec emax (Zdigits2 m + e) ->
  valid (round_float s m e l) = true.
Proof.
  intros Hm He. unfold valid, round_float, binary_round_aux.
  pose proof (shr_fexp_canonical m e l Hm He) as H1.
  destruct (shr_fexp prec emax m e l) as [mrs1 e1].
  destruct H1 as (Hm1 & Hc1 & Hz1).
  set (m1 := round_nearest_even (shr_m mrs1) (loc_of_shr_record mrs1)).
  pose proof (round_nearest_even_bounds (shr_m mrs1) (loc_of_shr_record mrs1))
    as Hr. fold m1 in Hr.
  assert (He1 : e1 <= fexp prec emax (Zdigits2 m1 + e1)).
  { destruct (Z.eq_dec (shr_m mrs1) 0) as [Hz|Hnz].
    - rewrite (Hz1 Hz). apply fexp_min.
    - rewrite <- (Hc1 ltac:(lia)) at 1. apply fexp_mono.
      pose proof (Zdigits2_mono (shr_m mrs1) m1 ltac:(lia)). lia. }
  pose proof (shr_fexp_canonical m1 e1 loc_Exact ltac:(lia) He1) as H2.
  destruct (shr_fexp prec emax m1 e1 loc_Exact) as [mrs2 e2].
  destruct H2 as (Hm2 & Hc2 & _).
  destruct (shr_m mrs2) as [|p|p] eqn:Ep; [reflexivity| |lia].
  destruct (Z.leb_spec e2 (emax - prec)) as [Hle|Hgt]; [|reflexivity].
  cbn [valid_binary]. unfold bounded, canonical_mantissa.
  specialize (Hc2 ltac:(lia)). cbn [Zdigits2] in Hc2.
  rewrite Hc2, Z.eqb_refl. simpl. apply Z.leb_le. assumption.
Qed.

Lemma div_exp_canonical a b :
  0 < a -> 0 < b ->
  div_exp a b <= fexp prec emax (Zdigits2 (div_mant a b) + div_exp a b).
Proof.
  intros Ha Hb.
  pose proof (div_exp_nonpos a b) as He.
  pose proof (Zdigits2_ge a Ha) as Hla.
  pose proof (Zdigits2_lt b ltac:(lia)) as Hub.
  pose proof (Zdigits2_pos a Ha). pose proof (Zdigits2_pos b Hb).
  assert (He0 : div_exp a b <= fexp prec emax (Zdigits2 a - Zdigits2 b)).
  { unfold div_exp. lia. }
  set (s := - div_exp a b) in *.
  destruct (Z_le_gt_dec 0 (Zdigits2 a - 1 + s - Zdigits2 b)) as [Hk|Hk].
  - (* the quotient has enough digits *)
    assert (Hq : 2 ^ (Zdigits2 a - 1 + s - Zdigits2 b) <= div_mant a b).
    { unfold div_mant. fold s. rewrite Z.shiftl_mul_pow2 by lia.
      apply Z.div_le_lower_bound; [assumption|].
      assert (0 < 2 ^ s) by (apply Z.pow_pos_nonneg; lia).
      assert (0 < 2 ^ (Zdigits2 a - 1 + s - Zdigits2 b))
        by (apply Z.pow_pos_nonneg; lia).
      assert (2 ^ Zdigits2 b * 2 ^ (Zdigits2 a - 1 + s - Zdigits2 b) =
              2 ^ (Zdigits2 a - 1) * 2 ^ s).
      { rewrite <- !Z.pow_add_r by lia. f_equal. lia. }
      nia. }
    pose proof (Zdigits2_ge_of_le _ _ Hk Hq).
    etransitivity; [exact He0|]. apply fexp_mono. lia.
  - rewrite fexp_eq in He0.
    pose proof (fexp_min (Zdigits2 (div_mant a b) + div_exp a b)). lia.
Qed.

Lemma int_truediv_valid a b f :
  0 < a -> 0 < b -> int_truediv a b = Ok f -> valid f = true.
Proof.
  intros Ha Hb. rewrite int_truediv_pos by assumption.
  pose proof (round_float_valid false (div_mant a b) (div_exp a b)
                (new_location b (Z.shiftl a (- div_exp a b) mod b))
                (div_mant_nonneg a b Ha Hb) (div_exp_canonical a b Ha Hb))
    as Hv.
  destruct (round_float false (div_mant a b) (div_exp a b) _);
    intros H; inversion H; subst; exact Hv.
Qed.

Lemma shl_align_exp mx ex ex' : snd (shl_align mx ex ex') = Z.min ex ex'.
Proof.
  unfold shl_align. destruct (ex' - ex) as [|d|d] eqn:E; simpl; lia.
Qed.

Lemma binary_round_valid s m e :
  valid (binary_round prec emax s m e) = true.
Proof.
  unfold binary_round.
  pose proof (shl_align_spec m e (fexp prec emax (Z.pos (digits2_pos m) + e)))
    as Hs.
  pose proof (shl_align_exp m e (fexp prec emax (Z.pos (digits2_pos m) + e)))
    as Hx.
  destruct (shl_align m e _) as [mz ez]. destruct Hs as [Hd _].
  cbn [snd] in Hx.
  fold (round_float s (Z.pos mz) ez loc_Exact).
  apply round_float_valid; [lia|].
  rewrite Hd. cbn [Zdigits2]. lia.
Qed.

Lemma binary_normalize_valid m e :
  valid (binary_normalize prec emax m e false) = true.
Proof.
  unfold binary_normalize. destruct m; [reflexivity| |];
    apply binary_round_valid.
Qed.

Lemma float_sub_valid x y :
  valid x = true -> valid y = true -> valid (float_sub x y) = true.
Proof.
  destruct x as [sx|sx| |sx mx ex]; destruct y as [sy|sy| |sy my ey];
    intros Hx Hy; unfold float_sub; cbn [SFsub]; try reflexivity;
    try assumption.
  - destruct sx, sy; reflexivity.
  - destruct sx, sy; reflexivity.
  - apply binary_normalize_valid.
Qed.

Lemma float_abs_valid x : valid x = true -> valid (float_abs x) = true.
Proof. destruct x; simpl; auto. Qed.

Lemma generated_err_valid target c :
  valid target = true -> generated target c -> valid (err c) = true.
Proof.
  intros Ht (Hn & Hd & _ & (q & Eq & ->) & _).
  apply float_abs_valid, float_sub_valid; [|assumption].
  apply (int_truediv_valid (num c) (den c)); assumption.
Qed.

(** A valid float with an exponent above the least one has 53 digits. *)
Lemma valid_normal s m e :
  valid (S754_finite s m e) = true -> -1074 < e ->
  2 ^ 52 <= Z.pos m.
Proof.
  unfold valid. cbn [valid_binary]. unfold bounded, canonical_mantissa.
  intros H He. apply andb_true_iff in H. destruct H as [H _].
  apply Z.eqb_eq in H. rewrite fexp_eq in H.
  assert (Hd : Z.pos (digits2_pos m) = 53) by lia.
  pose proof (Zdigits2_ge (Z.pos m) ltac:(lia)) as Hge.
  cbn [Zdigits2] in Hge. rewrite Hd in Hge. exact Hge.
Qed.

End Validity.

Import Validity.

(** * Further properties: [format_error] *)

Lemma string_length_append s t :
  String.length (s ++ t) = (String.length s + String.length t)%nat.
Proof. induction s as [|c s IH]; simpl; [reflexivity|]. rewrite IH. reflexivity. Qed.

Lemma string_app_inj s1 : forall s2 t1 t2,
  String.length s1 = String.length s2 ->
  (s1 ++ t1 = s2 ++ t2)%string -> s1 = s2 /\ t1 = t2.
Proof.
  induction s1 as [|c s1 IH]; intros [|c2 s2] t1 t2 Hl H; simpl in *;
    try discriminate.
  - auto.
  - inversion H; subst. inversion Hl as [Hl'].
    destruct (IH s2 t1 t2 Hl' H2) as [-> ->]. auto.
Qed.

Lemma fixed_digits_length k n : String.length (fixed_digits k n) = k.
Proof. induction k as [|k IH]; simpl; [reflexivity|]. rewrite IH. reflexivity. Qed.

Lemma digit_char_inj d d' :
  0 <= d < 10 -> 0 <= d' < 10 -> digit_char d = digit_char d' -> d = d'.
Proof.
  intros Hd Hd' H. unfold digit_char in H.
  apply (f_equal nat_of_ascii) in H.
  rewrite !nat_ascii_embedding in H by lia. lia.
Qed.

Lemma fixed_digits_inj k : forall n n',
  fixed_digits k n = fixed_digits k n' ->
  n mod 10 ^ Z.of_nat k = n' mod 10 ^ Z.of_nat k.
Proof.
  induction k as [|k IH]; intros n n' H.
  - simpl. rewrite !Z.mod_1_r. reflexivity.
  - cbn [fixed_digits] in H. inversion H as [[Hc Hr]].
    apply digit_char_inj in Hc; try (apply Z.mod_pos_bound; lia).
    specialize (IH n n' Hr).
    assert (Hp : 0 < 10 ^ Z.of_nat k) by (apply Z.pow_pos_nonneg; lia).
    replace (Z.of_nat (S k)) with (Z.of_nat k + 1) by lia.
    rewrite Z.pow_add_r by lia. change (10 ^ 1) with 10.
    rewrite !Z.rem_mul_r by lia. rewrite IH, Hc. reflexivity.
Qed.

Lemma str_of_int_inj n n' : str_of_int n = str_of_int n' -> n = n'.
Proof.
  unfold str_of_int. intros H.
  apply (f_equal DecimalString.NilZero.int_of_string) in H.
  assert (Hnn : forall z, Z.to_int z <> Decimal.Pos Decimal.Nil /\
                          Z.to_int z <> Decimal.Neg Decimal.Nil).
  { intros [|p|p]; simpl; split; try discriminate;
      intros E; inversion E as [E'];
      exact (DecimalPos.Unsigned.to_uint_nonnil p E'). }
  rewrite !DecimalString.NilZero.isi in H by apply Hnn.
  inversion H as [H']. apply DecimalZ.to_int_inj. assumption.
Qed.

(** Different counts of units of [10^-8] are shown differently. *)
Lemma fixed8_inj N N' : fixed8 N = fixed8 N' -> N = N'.
Proof.
  unfold fixed8. intros H.
  assert (Hl : String.length (str_of_int (N / 10 ^ 8)) =
               String.length (str_of_int (N' / 10 ^ 8))).
  { apply (f_equal String.length) in H.
    rewrite !string_length_append, !fixed_digits_length in H. lia. }
  destruct (string_app_inj _ _ _ _ Hl H) as [Hi Hf].
  apply str_of_int_inj in Hi.
  destruct (string_app_inj "." "." _ _ eq_refl Hf) as [_ Hf'].
  apply (fixed_digits_inj 8) in Hf'. change (Z.of_nat 8) with 8 in Hf'.
  rewrite (Z.div_mod N (10 ^ 8)), (Z.div_mod N' (10 ^ 8)) by lia.
  rewrite Hi, Hf'. reflexivity.
Qed.

(** [round_half_even m k] is an integer nearest to [m / 2^k]. *)
Lemma round_half_even_nearest m k :
  0 < k ->
  2 * Z.abs (round_half_even m k * 2 ^ k - m) <= 2 ^ k.
Proof.
  intros Hk. unfold round_half_even.
  assert (Hp : 0 < 2 ^ k) by (apply Z.pow_pos_nonneg; lia).
  assert (Hh : 2 ^ k = 2 * 2 ^ (k - 1)).
  { rewrite <- Z.pow_succ_r by lia. f_equal. lia. }
  pose proof (Z.div_mod m (2 ^ k) ltac:(lia)) as Hdm.
  pose proof (Z.mod_pos_bound m (2 ^ k) Hp) as Hb.
  set (q := m / 2 ^ k) in *. set (r := m mod 2 ^ k) in *.
  set (h := 2 ^ (k - 1)) in *.
  destruct (Z.ltb_spec r h); [nia|].
  destruct (Z.ltb_spec h r); [nia|].
  destruct (Z.even q); nia.
Qed.

(** A valid float that is not below the literal [1e-8] counts at least one
    unit of [10^-8]. *)
Lemma scaled8_pos m e :
  valid (S754_finite false m e) = true ->
  float_lt (S754_finite false m e) lit_1e_8 = false ->
  1 <= scaled8 m e.
Proof.
  intros Hv Hlt. unfold lit_1e_8 in Hlt.
  apply float_lt_false_finite in Hlt.
  unfold scaled8.
  destruct (Z.leb_spec 0 e) as [He|He].
  - assert (0 < 2 ^ e) by (apply Z.pow_pos_nonneg; lia). nia.
  - pose proof (round_half_even_bounds (Z.pos m * 10 ^ 8) (- e) ltac:(lia))
      as Hr.
    assert (1 <= Z.pos m * 10 ^ 8 / 2 ^ (- e)); [|lia].
    assert (Hp : 0 < 2 ^ (- e)) by (apply Z.pow_pos_nonneg; lia).
    apply Z.div_le_lower_bound; [assumption|].
    destruct Hlt as [Hlt|[-> Hm]].
    + pose proof (valid_normal false m e Hv ltac:(lia)) as Hn.
      assert (2 ^ (- e) <= 2 ^ 78) by (apply Z.pow_le_mono_r; lia).
      assert (2 ^ 78 <= 2 ^ 52 * 10 ^ 8) by (vm_compute; discriminate).
      nia.
    + change (- -79) with 79.
      assert (2 ^ 79 <= 6044629098073146 * 10 ^ 8)
        by (vm_compute; discriminate).
      assert (6044629098073146 <= Z.pos m) by lia.
      nia.
Qed.

(** ** Differences of finite floats are finite *)

Lemma valid_bounds s m e :
  valid (S754_finite s m e) = true -> Z.pos m < 2 ^ 53 /\ e <= 971.
Proof.
  unfold valid. cbn [valid_binary]. unfold bounded, canonical_mantissa.
  intros H. apply andb_true_iff in H. destruct H as [Hc He].
  apply Z.eqb_eq in Hc. apply Z.leb_le in He. rewrite fexp_eq in Hc.
  change (emax - prec) with 971 in He. split; [|assumption].
  pose proof (Zdigits2_lt (Z.pos m) ltac:(lia)) as Hlt.
  cbn [Zdigits2] in Hlt.
  assert (2 ^ Z.pos (digits2_pos m) <= 2 ^ 53)
    by (apply Z.pow_le_mono_r; lia).
  lia.
Qed.

(** Rounding a value below the largest double gives a finite float. *)
Lemma round_float_below s m e :
  0 <= m -> e <= 971 -> m < (2 ^ 53 - 1) * 2 ^ (971 - e) ->
  is_finite (round_float s m e loc_Exact) = true.
Proof.
  intros Hm He Hlt.
  assert (Hp : 0 < 2 ^ (971 - e)) by (apply Z.pow_pos_nonneg; lia).
  assert (Hd : Zdigits2 m + e <= 1024).
  { assert (Zdigits2 m <= 1024 - e); [|lia].
    apply Zdigits2_le_of_lt; [assumption|lia|].
    replace (1024 - e) with (53 + (971 - e)) by lia.
    rewrite Z.pow_add_r by lia. nia. }
  destruct (Z_le_gt_dec (Zdigits2 m + e) 1023) as [Hs|Hb].
  { apply (fits_finite 1024 971). apply round_float_fits; lia. }
  assert (Hde : Zdigits2 m + e = 1024) by lia.
  unfold round_float, binary_round_aux.
  pose proof (shr_fexp_spec m e loc_Exact Hm) as H1. cbv zeta in H1.
  destruct (shr_fexp prec emax m e loc_Exact) as [mrs1 e1].
  rewrite Hde, fexp_eq in H1. change (Z.max (1024 - 53) (-1074)) with 971 in H1.
  assert (H1' : 0 <= shr_m mrs1 < 2 ^ 53 - 1 /\ e1 = 971).
  { destruct H1 as [Ha Hb'].
    destruct (Z_lt_le_dec 0 (971 - e)) as [Hn|Hn].
    - destruct (Ha Hn) as [-> ->]. split; [|lia]. split.
      + apply Z.div_pos; lia.
      + apply Z.div_lt_upper_bound; [assumption|lia].
    - destruct (Hb' Hn) as [-> ->].
      assert (e = 971) by lia. subst e.
      change (2 ^ (971 - 971)) with 1 in Hlt. lia. }
  destruct H1' as [Hm1 ->].
  set (m1 := round_nearest_even (shr_m mrs1) (loc_of_shr_record mrs1)).
  pose proof (round_nearest_even_bounds (shr_m mrs1) (loc_of_shr_record mrs1))
    as Hr. fold m1 in Hr.
  assert (Hd1 : Zdigits2 m1 <= 53).
  { apply Zdigits2_le_of_lt; lia. }
  pose proof (shr_fexp_spec m1 971 loc_Exact ltac:(lia)) as H2.
  cbv zeta in H2.
  destruct (shr_fexp prec emax m1 971 loc_Exact) as [mrs2 e2].
  rewrite fexp_eq in H2. destruct H2 as [_ H2].
  destruct (H2 ltac:(lia)) as [Hm2 ->].
  rewrite Hm2. destruct m1 as [|p|p]; [reflexivity| |lia].
  reflexivity.
Qed.

Lemma pos_iter_xO m d : Z.pos (Pos.iter xO m d) = Z.pos m * 2 ^ Z.pos d.
Proof.
  induction d as [|d IH] using Pos.peano_ind.
  - simpl. lia.
  - rewrite Pos.iter_succ, Pos2Z.inj_succ, Z.pow_succ_r by lia.
    rewrite Pos2Z.inj_xO, IH. ring.
Qed.

Lemma shl_align_value mx ex ex' :
  let '(mz, ez) := shl_align mx ex ex' in
  ez <= ex /\ Z.pos mz = Z.pos mx * 2 ^ (ex - ez).
Proof.
  unfold shl_align. destruct (ex' - ex) as [|d|d] eqn:E.
  - rewrite Z.sub_diag. simpl. lia.
  - rewrite Z.sub_diag. simpl. lia.
  - split; [lia|]. rewrite pos_iter_xO. f_equal. f_equal. lia.
Qed.

Lemma binary_round_below s m e :
  e <= 971 -> Z.pos m < (2 ^ 53 - 1) * 2 ^ (971 - e) ->
  is_finite (binary_round prec emax s m e) = true.
Proof.
  intros He Hlt. unfold binary_round.
  pose proof (shl_align_value m e (fexp prec emax (Z.pos (digits2_pos m) + e)))
    as Hs.
  destruct (shl_align m e _) as [mz ez]. destruct Hs as [Hez Hmz].
  fold (round_float s (Z.pos mz) ez loc_Exact).
  apply round_float_below; [lia|lia|].
  rewrite Hmz.
  replace (971 - ez) with ((971 - e) + (e - ez)) by lia.
  rewrite Z.pow_add_r by lia.
  assert (0 < 2 ^ (e - ez)) by (apply Z.pow_pos_nonneg; lia).
  assert (0 < 2 ^ (971 - e)) by (apply Z.pow_pos_nonneg; lia).
  nia.
Qed.

Lemma aligned_below mx ex ez :
  valid (S754_finite false mx ex) = true -> ez <= ex ->
  Z.pos mx * 2 ^ (ex - ez) <= (2 ^ 53 - 1) * 2 ^ (971 - ez).
Proof.
  intros Hv Hez. destruct (valid_bounds _ _ _ Hv) as [Hm He].
  replace (971 - ez) with ((971 - ex) + (ex - ez)) by lia.
  rewrite Z.pow_add_r by lia.
  assert (0 < 2 ^ (ex - ez)) by (apply Z.pow_pos_nonneg; lia).
  assert (0 < 2 ^ (971 - ex)) by (apply Z.pow_pos_nonneg; lia).
  nia.
Qed.

(** The difference of two finite non-negative doubles does not overflow. *)
Lemma float_sub_finite x y :
  valid x = true -> valid y = true ->
  finite_pos x = true -> finite_pos y = true ->
  is_finite (float_sub x y) = true.
Proof.
  destruct x as [[|]| | |[|] mx ex]; try discriminate;
  destruct y as [[|]| | |[|] my ey]; try discriminate;
    intros Hvx Hvy _ _; unfold float_sub; cbn [SFsub]; try reflexivity.
  set (ez := Z.min ex ey).
  pose proof (shl_align_value mx ex ez) as Hx.
  pose proof (shl_align_value my ey ez) as Hy.
  pose proof (shl_align_exp mx ex ez) as E1.
  pose proof (shl_align_exp my ey ez) as E2.
  destruct (shl_align mx ex ez) as [mx' ex'].
  destruct (shl_align my ey ez) as [my' ey'].
  cbn [fst snd cond_Zopp] in *.
  assert (Hex : ex' = ez /\ ey' = ez) by (unfold ez in *; split; lia).
  destruct Hex as [-> ->]. destruct Hx as [_ Hx]. destruct Hy as [_ Hy].
  pose proof (aligned_below mx ex ez Hvx ltac:(unfold ez; lia)) as Bx.
  pose proof (aligned_below my ey ez Hvy ltac:(unfold ez; lia)) as By.
  destruct (valid_bounds _ _ _ Hvx) as [_ Hex].
  unfold binary_normalize.
  destruct (Z.pos mx' - Z.pos my') as [|p|p] eqn:E; [reflexivity| |];
    apply binary_round_below; unfold ez in *; lia.
Qed.

Lemma generated_err_finite target c :
  valid target = true -> finite_pos target = true ->
  generated target c -> is_finite (err c) = true.
Proof.
  intros Hv Ht (Hn & Hd & _ & (q & Eq & ->) & _).
  pose proof (int_truediv_valid _ _ _ Hn Hd Eq) as Hvq.
  pose proof (int_truediv_finite_pos _ _ _ Hn Hd Eq) as Hq.
  pose proof (float_sub_finite q target Hvq Hv Hq Ht) as Hf.
  destruct (float_sub q target); try discriminate; reflexivity.
Qed.

(** ** The three tiers *)

Lemma format_error_third_tier m e :
  float_lt (S754_finite false m e) lit_1e_8 = false ->
  format_error (S754_finite false m e) =
    (approx_sign ++ fixed8 (scaled8 m e))%string.
Proof.
  intros Hlt. unfold format_error. rewrite Hlt.
  assert (H16 : float_lt (S754_finite false m e) lit_1e_16 = false).
  { unfold lit_1e_8 in Hlt. unfold lit_1e_16.
    apply float_lt_false_finite in Hlt. apply float_lt_false_finite. lia. }
  rewrite H16. reflexivity.
Qed.

(** X6. In the third tier, a finite error is shown as the approx sign followed
    by the decimal expansion, with 8 digits after the point, of [N] units
    of [10^-8], where [N] is an integer nearest to the error counted in
    these units; [N] is at least 1, so the text is never the expansion of
    zero. *)
Theorem format_error_approx_tier m e :
  valid (S754_finite false m e) = true ->
  float_lt (S754_finite false m e) lit_1e_8 = false ->
  exists N,
    format_error (S754_finite false m e) = (approx_sign ++ fixed8 N)%string /\
    1 <= N /\
    (0 <= e -> N = Z.pos m * 2 ^ e * 10 ^ 8) /\
    (e < 0 -> 2 * Z.abs (N * 2 ^ (- e) - Z.pos m * 10 ^ 8) <= 2 ^ (- e)) /\
    (forall N', fixed8 N' = fixed8 N -> N' = N).
Proof.
  intros Hv Hlt. exists (scaled8 m e).
  split; [apply format_error_third_tier; assumption|].
  split; [apply scaled8_pos; assumption|].
  split; [|split].
  - intros He. unfold scaled8. destruct (Z.leb_spec 0 e); [reflexivity|lia].
  - intros He. unfold scaled8. destruct (Z.leb_spec 0 e); [lia|].
    apply round_half_even_nearest. lia.
  - intros N'. apply fixed8_inj.
Qed.

Lemma format_error_approx_tier_witness :
  exists N,
    format_error float_one = (approx_sign ++ fixed8 N)%string /\
    1 <= N /\
    (0 <= -52 -> N = 4503599627370496 * 2 ^ (-52) * 10 ^ 8) /\
    (-52 < 0 ->
     2 * Z.abs (N * 2 ^ (- -52) - 4503599627370496 * 10 ^ 8)
     <= 2 ^ (- -52)) /\
    (forall N', fixed8 N' = fixed8 N -> N' = N).
Proof.
  apply (format_error_approx_tier 4503599627370496 (-52)); reflexivity.
Defined.

Lemma returned_generated M T a b m l :
  0 < a -> 0 < b ->
  approximate_top5 M T a b = Ok (m, l) ->
  exists target,
    int_truediv a b = Ok target /\ Forall (generated target) l /\
    forall s, m = ModeCand s -> generated target s.
Proof.
  intros Ha Hb H.
  destruct (approximate_top5_inv _ _ _ _ _ _ Ha Hb H)
    as (target & cs & ss & Et & Ht & El & [[_ Hlim]|[Hne Hr]]).
  - exists target. split; [assumption|].
    destruct (a <? b).
    + apply limit_small_inv in Hlim.
      destruct Hlim as (q & r & i & _ & _ & Hi & -> & ->).
      split; [|intros s ?; discriminate].
      constructor; [|constructor]. apply generated_limit_small; assumption.
    + apply limit_large_inv in Hlim.
      destruct Hlim as (q & r & v & _ & _ & Hv & -> & ->).
      split; [|intros s ?; discriminate].
      constructor; [|constructor]. apply generated_limit_large; assumption.
  - destruct (search_loop_spec M target cs ss Ht El) as (Hf & Hg & _ & _).
    exists target. split; [assumption|].
    rewrite Forall_forall in Hg. split.
    + rewrite Forall_forall. intros c Hc. apply Hg.
      assert (Hl : l = snd (rank T cs ss)) by (rewrite Hr; reflexivity).
      rewrite rank_snd in Hl. subst l. apply firstn_In in Hc.
      apply (Permutation_in _ (sort_by_err_perm cs)) in Hc. assumption.
    + intros s Hm.
      assert (Hm' : fst (rank T cs ss) = ModeCand s) by (rewrite Hr; exact Hm).
      rewrite rank_fst in Hm'.
      destruct (sort_by_err ss) as [|s0 srest] eqn:Es; [discriminate|].
      destruct (_ && _); [|discriminate].
      inversion Hm'; subst s0. apply Hg.
      assert (Hin : In s ss).
      { apply (Permutation_in _ (sort_by_err_perm ss)).
        rewrite Es. left; reflexivity. }
      subst ss. apply filter_In in Hin. tauto.
Qed.

Lemma shown_error_canonical M T a b m l c :
  0 < a -> 0 < b ->
  approximate_top5 M T a b = Ok (m, l) ->
  shown m l c ->
  exists target,
    int_truediv a b = Ok target /\ generated target c /\
    is_finite (err c) = true /\ valid (err c) = true.
Proof.
  intros Ha Hb H Hc.
  destruct (returned_generated M T a b m l Ha Hb H) as (target & Et & Hg & Hs).
  pose proof (int_truediv_valid a b target Ha Hb Et) as Hv.
  pose proof (int_truediv_finite_pos a b target Ha Hb Et) as Ht.
  assert (Hgc : generated target c).
  { destruct Hc as [Hc|Hc]; [|apply Hs; assumption].
    rewrite Forall_forall in Hg. apply Hg; assumption. }
  exists target. split; [assumption|]. split; [assumption|].
  split; [apply (generated_err_finite target); assumption|].
  apply (generated_err_valid target); assumption.
Qed.

Lemma nonneg_sign_bit x : nonneg x = true -> sign_bit x = false.
Proof.
  unfold nonneg. intros H. apply andb_true_iff in H. destruct H as [_ H].
  destruct (sign_bit x); [discriminate|reflexivity].
Qed.

(** X7. Whatever [approximate_top5] returns, each listed candidate (and the
    highlighted one) carries an error that is a finite, non-negative,
    valid double: the error a caller prints is never a NaN, an infinity or
    negative. *)
Theorem returned_error_finite M T a b m l c :
  0 < a -> 0 < b ->
  approximate_top5 M T a b = Ok (m, l) ->
  shown m l c ->
  is_finite (err c) = true /\ sign_bit (err c) = false /\
  valid (err c) = true.
Proof.
  intros Ha Hb H Hc.
  destruct (shown_error_canonical M T a b m l c Ha Hb H Hc)
    as (target & _ & Hg & Hf & Hv).
  split; [assumption|]. split; [|assumption].
  apply nonneg_sign_bit. apply (generated_err_nonneg target). assumption.
Qed.

Lemma returned_error_finite_witness :
  is_finite (S754_zero false) = true /\ sign_bit (S754_zero false) = false /\
  valid (S754_zero false) = true.
Proof.
  apply (returned_error_finite 64 default_THRESHOLD 1 1000
           (ModeStr "limit_small") [mkCand 1 1000 (S754_zero false)]
           (mkCand 1 1000 (S754_zero false)));
    [lia|lia|vm_compute; reflexivity|left; left; reflexivity].
Defined.

(** X8. The error of every candidate shown is printed in one of three forms:
    [=0], [<0.00000001], or the approx sign followed by a positive number
    with 8 decimals; never as [nan], [inf], a negative number or
    [0.00000000]. *)
Theorem returned_error_text M T a b m l c :
  0 < a -> 0 < b ->
  approximate_top5 M T a b = Ok (m, l) ->
  shown m l c ->
  format_error (err c) = "=0"%string \/
  format_error (err c) = "<0.00000001"%string \/
  exists N, 1 <= N /\
            format_error (err c) = (approx_sign ++ fixed8 N)%string.
Proof.
  intros Ha Hb H Hc.
  destruct (shown_error_canonical M T a b m l c Ha Hb H Hc)
    as (target & _ & Hg & Hf & Hv).
  pose proof (nonneg_sign_bit _ (generated_err_nonneg target c Hg)) as Hs.
  destruct (float_lt (err c) lit_1e_16) eqn:H16.
  { left. unfold format_error. rewrite H16. reflexivity. }
  destruct (float_lt (err c) lit_1e_8) eqn:H8.
  { right; left. unfold format_error. rewrite H16, H8. reflexivity. }
  right; right.
  destruct (err c) as [s|s| |s mm ee]; try discriminate.
  cbn [sign_bit] in Hs. subst s.
  exists (scaled8 mm ee).
  split; [apply scaled8_pos; assumption|].
  apply format_error_third_tier; assumption.
Qed.

Lemma returned_error_text_witness :
  format_error (S754_zero false) = "=0"%string \/
  format_error (S754_zero false) = "<0.00000001"%string \/
  exists N, 1 <= N /\
            format_error (S754_zero false) =
              (approx_sign ++ fixed8 N)%string.
Proof.
  apply (returned_error_text 64 default_THRESHOLD 1 1000
           (ModeStr "limit_small") [mkCand 1 1000 (S754_zero false)]
           (mkCand 1 1000 (S754_zero false)));
    [lia|lia|vm_compute; reflexivity|left; left; reflexivity].
Defined.

(** * Further properties: the list of candidates *)

(** Two reduced fractions with positive terms and the same value have the
    same denominator. *)
Lemma reduced_same_ratio n1 d1 n2 d2 :
  0 < n1 -> 0 < d1 -> 0 < n2 -> 0 < d2 ->
  Z.gcd n1 d1 = 1 -> Z.gcd n2 d2 = 1 ->
  n1 * d2 = n2 * d1 -> d1 = d2.
Proof.
  intros Hn1 Hd1 Hn2 Hd2 G1 G2 E.
  apply Z.divide_antisym_nonneg; try lia.
  - apply Z.gauss with (m := n1).
    + exists n2. lia.
    + rewrite Z.gcd_comm. assumption.
  - apply Z.gauss with (m := n2).
    + exists n1. lia.
    + rewrite Z.gcd_comm. assumption.
Qed.

Lemma distinct_den_distinct_ratio target l :
  Forall (generated target) l -> NoDup (map den l) ->
  ForallOrdPairs distinct_ratio l.
Proof.
  induction l as [|x l IH]; intros Hg Hnd; [constructor|].
  inversion Hg as [|? ? Hx Hg']; subst.
  simpl in Hnd. inversion Hnd as [|? ? Hnin Hnd']; subst.
  constructor; [|apply IH; assumption].
  rewrite Forall_forall in Hg' |- *. intros y Hy E.
  destruct Hx as (Hxn & Hxd & Hxg & _).
  destruct (Hg' y Hy) as (Hyn & Hyd & Hyg & _).
  apply Hnin. rewrite in_map_iff. exists y. split; [|assumption].
  symmetry. apply (reduced_same_ratio (num x) (den x) (num y) (den y)); auto.
Qed.

Lemma sorted_lt_NoDup l : StronglySorted Z.lt l -> NoDup l.
Proof.
  induction 1 as [|x l Hs IH Hx]; constructor; [|assumption].
  intros Hin. rewrite Forall_forall in Hx. specialize (Hx x Hin). lia.
Qed.

Lemma NoDup_firstn {A} n (l : list A) : NoDup l -> NoDup (firstn n l).
Proof.
  revert n. induction l as [|x l IH]; intros [|n] H; simpl; try constructor.
  - inversion H as [|? ? Hnin Hnd]; subst.
    intros Hin. apply Hnin. apply (firstn_In n). assumption.
  - inversion H; subst. apply IH; assumption.
Qed.

(** X9. No ratio is listed twice: any two candidates of a returned list have
    different values [num/den] (and different denominators). *)
Theorem returned_ratios_distinct M T a b m l :
  0 < a -> 0 < b ->
  approximate_top5 M T a b = Ok (m, l) ->
  ForallOrdPairs distinct_ratio l /\ NoDup (map den l).
Proof.
  intros Ha Hb H.
  assert (Hnd : NoDup (map den l)).
  { destruct (approximate_top5_inv _ _ _ _ _ _ Ha Hb H)
      as (target & cs & ss & Et & Ht & El & [[_ Hlim]|[Hne Hr]]).
    - destruct (a <? b).
      + apply limit_small_inv in Hlim.
        destruct Hlim as (? & ? & ? & _ & _ & _ & _ & ->).
        simpl. constructor; [intros []|constructor].
      + apply limit_large_inv in Hlim.
        destruct Hlim as (? & ? & ? & _ & _ & _ & _ & ->).
        simpl. constructor; [intros []|constructor].
    - destruct (search_loop_spec M target cs ss Ht El) as (_ & _ & _ & Hs).
      assert (Hl : l = snd (rank T cs ss)) by (rewrite Hr; reflexivity).
      rewrite rank_snd in Hl. subst l.
      rewrite <- firstn_map. apply NoDup_firstn.
      apply (Permutation_NoDup (l := map den cs)).
      + apply Permutation_map. symmetry. apply sort_by_err_perm.
      + apply sorted_lt_NoDup. assumption. }
  split; [|assumption].
  destruct (returned_generated M T a b m l Ha Hb H) as (target & _ & Hg & _).
  apply (distinct_den_distinct_ratio target); assumption.
Qed.

Lemma returned_ratios_distinct_witness :
  ForallOrdPairs distinct_ratio top5_16_9 /\ NoDup (map den top5_16_9).
Proof.
  apply (returned_ratios_distinct 64 default_THRESHOLD 16 9 ModeNone);
    [lia|lia|vm_compute; reflexivity].
Defined.

(** X10. A returned list holds between one and five candidates: exactly one in
    the limit modes, and otherwise the five best, or all of them when there
    are fewer than five. *)
Theorem returned_length M T a b m l :
  0 < a -> 0 < b ->
  approximate_top5 M T a b = Ok (m, l) ->
  (1 <= List.length l <= 5)%nat /\
  (tag_of_mode m = Some TagLimitSmall \/ tag_of_mode m = Some TagLimitLarge ->
   List.length l = 1%nat) /\
  (forall target cs ss,
     int_truediv a b = Ok target -> search_loop M target = Ok (cs, ss) ->
     cs <> [] -> List.length l = Nat.min 5 (List.length cs)).
Proof.
  intros Ha Hb H.
  destruct (approximate_top5_inv _ _ _ _ _ _ Ha Hb H)
    as (target & cs & ss & Et & Ht & El & [[Hnil Hlim]|[Hne Hr]]).
  - assert (Hl : exists c, l = [c]).
    { destruct (a <? b).
      - apply limit_small_inv in Hlim.
        destruct Hlim as (? & ? & ? & _ & _ & _ & _ & ->). eauto.
      - apply limit_large_inv in Hlim.
        destruct Hlim as (? & ? & ? & _ & _ & _ & _ & ->). eauto. }
    destruct Hl as [c ->]. simpl. split; [lia|]. split; [reflexivity|].
    intros target' cs' ss' Et' El' Hne.
    rewrite Et in Et'. inversion Et'; subst target'.
    rewrite El in El'. inversion El'; subst. contradiction.
  - assert (Hl : l = snd (rank T cs ss)) by (rewrite Hr; reflexivity).
    rewrite rank_snd in Hl.
    assert (Hlen : List.length l = Nat.min 5 (List.length cs)).
    { subst l. rewrite length_firstn, sort_by_err_length. reflexivity. }
    assert (Hcs : (1 <= List.length cs)%nat).
    { destruct cs; [contradiction|simpl; lia]. }
    split; [lia|]. split.
    + assert (Hm : m = fst (rank T cs ss)) by (rewrite Hr; reflexivity).
      rewrite rank_fst in Hm. subst m.
      destruct (sort_by_err ss) as [|s ?].
      * simpl. intros [?|?]; discriminate.
      * destruct (_ && _); simpl; intros [?|?]; discriminate.
    + intros target' cs' ss' Et' El' _.
      rewrite Et in Et'. inversion Et'; subst target'.
      rewrite El in El'. inversion El'; subst. assumption.
Qed.

Lemma returned_length_witness :
  (1 <= List.length top5_16_9 <= 5)%nat /\
  (tag_of_mode ModeNone = Some TagLimitSmall \/
   tag_of_mode ModeNone = Some TagLimitLarge ->
   List.length top5_16_9 = 1%nat) /\
  (forall target cs ss,
     int_truediv 16 9 = Ok target -> search_loop 64 target = Ok (cs, ss) ->
     cs <> [] -> List.length top5_16_9 = Nat.min 5 (List.length cs)).
Proof.
  apply (returned_length 64 default_THRESHOLD 16 9 ModeNone);
    [lia|lia|vm_compute; reflexivity].
Defined.

(** ** The candidates are exactly the rounded multiples *)

Lemma rounds_to_fun target d n n' :
  rounds_to target d n -> rounds_to target d n' -> n = n'.
Proof.
  intros (p & Ep & En) (p' & Ep' & En'). congruence.
Qed.

Lemma search_step_char target cs ss d cs' ss' :
  search_step target (cs, ss) d = Ok (cs', ss') ->
  exists n, rounds_to target d n /\
    (((n = 0 \/ Z.gcd n d <> 1) /\ cs' = cs) \/
     (n <> 0 /\ Z.gcd n d = 1 /\
      exists c, num c = n /\ den c = d /\ cs' = cs ++ [c])).
Proof.
  unfold search_step.
  destruct (float_mul_int target d) as [p|] eqn:Ep; cbn [bind]; [|discriminate].
  destruct (py_round p) as [n|] eqn:En; cbn [bind]; [|discriminate].
  intros H. exists n. split; [exists p; auto|].
  destruct (Z.eqb_spec n 0) as [Hn|Hn].
  { inversion H; subst. left; auto. }
  destruct (Z.eqb_spec (Z.gcd n d) 1) as [Hg|Hg]; cbn [negb] in H.
  2:{ inversion H; subst. left; auto. }
  destruct (int_truediv n d) as [q|]; cbn [bind] in H; [|discriminate].
  inversion H; subst. right. repeat split; auto.
  eexists. split; [|split; [|reflexivity]]; reflexivity.
Qed.

Lemma search_from_char target dens : forall cs ss cs' ss',
  search_from target (cs, ss) dens = Ok (cs', ss') ->
  exists new,
    cs' = cs ++ new /\
    (forall c, In c new ->
       In (den c) dens /\ rounds_to target (den c) (num c)) /\
    (forall d, In d dens -> exists n, rounds_to target d n) /\
    (forall d n, In d dens -> rounds_to target d n -> n <> 0 ->
       Z.gcd n d = 1 -> exists c, In c new /\ num c = n /\ den c = d).
Proof.
  induction dens as [|d dens IH]; intros cs ss cs' ss'; cbn [search_from].
  - intros H; inversion H; subst. exists []. rewrite app_nil_r.
    split; [reflexivity|]. repeat split; intros; contradiction.
  - destruct (search_step target (cs, ss) d) as [[cs1 ss1]|] eqn:E1;
      cbn [bind]; [|discriminate].
    intros H2.
    destruct (IH _ _ _ _ H2) as (new & -> & Hs & Ht & Hc).
    destruct (search_step_char _ _ _ _ _ _ E1)
      as (n & Hn & [[Hskip ->]|(Hn0 & Hg & c & Hcn & Hcd & ->)]).
    + exists new. split; [reflexivity|]. split; [|split].
      * intros c Hin. destruct (Hs c Hin). split; [right|]; assumption.
      * intros d' [<-|Hin]; [eauto|auto].
      * intros d' n' [<-|Hin] Hr Hn0 Hg; [|eauto].
        pose proof (rounds_to_fun _ _ _ _ Hn Hr). subst n'.
        destruct Hskip; contradiction.
    + exists (c :: new). rewrite <- app_assoc. split; [reflexivity|].
      split; [|split].
      * intros c' [<-|Hin].
        -- rewrite Hcd, Hcn. split; [left; reflexivity|assumption].
        -- destruct (Hs c' Hin). split; [right|]; assumption.
      * intros d' [<-|Hin]; [eauto|auto].
      * intros d' n' [<-|Hin] Hr Hn0' Hg'.
        -- pose proof (rounds_to_fun _ _ _ _ Hn Hr). subst n'.
           exists c. split; [left; reflexivity|auto].
        -- destruct (Hc d' n' Hin Hr Hn0' Hg') as (c' & Hin' & E).
           exists c'. split; [right; assumption|assumption].
Qed.

(** X11. When the search completes, [round(target * d)] is defined for every
    [d] in [1..MAX_DENOMINATOR], and the candidates are exactly the pairs
    [(round(target * d), d)] with a non-zero numerator and gcd 1. *)
Theorem search_loop_complete M a b target cs ss :
  0 < a -> 0 < b ->
  int_truediv a b = Ok target ->
  search_loop M target = Ok (cs, ss) ->
  (forall d, 1 <= d <= M -> exists n, rounds_to target d n) /\
  (forall n d,
     (exists c, In c cs /\ num c = n /\ den c = d) <->
     (1 <= d <= M /\ rounds_to target d n /\ n <> 0 /\ Z.gcd n d = 1)).
Proof.
  intros Ha Hb Et El.
  pose proof (int_truediv_finite_pos a b target Ha Hb Et) as Ht.
  destruct (search_loop_spec M target cs ss Ht El) as (_ & Hg & _ & _).
  unfold search_loop in El.
  destruct (search_from_char _ _ _ _ _ _ El) as (new & Hcs & Hs & Hr & Hc).
  simpl in Hcs. subst new. split.
  - intros d Hd. apply Hr. apply py_range_spec. lia.
  - intros n d. split.
    + intros (c & Hin & <- & <-).
      destruct (Hs c Hin) as [Hd Hrt]. apply py_range_spec in Hd.
      rewrite Forall_forall in Hg.
      destruct (Hg c Hin) as (Hn & _ & Hgcd & _).
      repeat split; auto; lia.
    + intros (Hd & Hrt & Hn & Hgcd).
      apply (Hc d n); auto. apply py_range_spec. lia.
Qed.

Lemma search_loop_complete_witness :
  (forall d, 1 <= d <= 64 -> exists n, rounds_to target_43_64 d n) /\
  (forall n d,
     (exists c, In c cands_43_64 /\ num c = n /\ den c = d) <->
     (1 <= d <= 64 /\ rounds_to target_43_64 d n /\ n <> 0 /\
      Z.gcd n d = 1)).
Proof.
  apply (search_loop_complete 64 43 64 target_43_64 cands_43_64
           singles_43_64);
    [lia|lia|vm_compute; reflexivity|vm_compute; reflexivity].
Defined.

(** * Further properties: queries under a validated configuration *)

Lemma float_le_finite m1 e1 m2 e2 :
  float_le (S754_finite false m1 e1) (S754_finite false m2 e2) = true <->
  e1 < e2 \/ (e1 = e2 /\ (m1 <= m2)%positive).
Proof.
  unfold float_le, SFleb, SFcompare.
  change (Pos.compare_cont Eq m1 m2) with (Pos.compare m1 m2).
  destruct (Z.compare_spec e1 e2); destruct (Pos.compare_spec m1 m2);
    split; intros; try discriminate; try lia; auto.
Qed.

Lemma float_lt_float_le_trans z T my ey :
  nonneg z = true ->
  float_lt z T = true -> float_le T (S754_finite false my ey) = true ->
  float_lt z (S754_finite false my ey) = true.
Proof.
  intros Hz Hlt Hle.
  apply nonneg_cases in Hz.
  destruct Hz as [->|[->|(mz & ez & ->)]]; [reflexivity| |].
  - destruct T as [[|]|[|]| |[|] m e]; discriminate.
  - destruct T as [[|]|[|]| |[|] m e]; try discriminate.
    rewrite float_le_finite in Hle.
    rewrite float_lt_finite in Hlt. rewrite float_lt_finite. lia.
Qed.

Lemma float_lt_le_one z T :
  nonneg z = true ->
  float_lt z T = true -> float_le T float_one = true ->
  float_lt z float_one = true.
Proof. unfold float_one. apply float_lt_float_le_trans. Qed.

(** X12. Whatever the two configuration values were set to, once the start-up
    validation has run a query on positive integers never returns mode
    ["limit_large"] (the [else] branch of the fallback is never taken), a
    single candidate is returned only for [a < b], and a highlighted
    single-digit candidate has an error below [1.0]. *)
Theorem validated_query float_of_str m t cfg a b md l :
  validate_config float_of_str m t = Ok cfg ->
  0 < a -> 0 < b ->
  approximate_top5 (max_denominator cfg) (single_digit_threshold cfg) a b
    = Ok (md, l) ->
  tag_of_mode md <> Some TagLimitLarge /\
  (tag_of_mode md = Some TagLimitSmall -> a < b) /\
  (forall s, md = ModeCand s -> float_lt (err s) float_one = true).
Proof.
  intros Hcfg Ha Hb H.
  pose proof (validated_bound _ _ _ _ Hcfg) as HM.
  destruct (validated_range _ _ _ _ Hcfg) as [_ HT].
  destruct (approximate_top5_inv _ _ _ _ _ _ Ha Hb H)
    as (target & cs & ss & Et & Ht & El & [[Hnil Hlim]|[Hne Hr]]).
  - destruct (Z.ltb_spec a b) as [Hab|Hab].
    + apply limit_small_inv in Hlim.
      destruct Hlim as (? & ? & ? & _ & _ & _ & -> & _).
      split; [discriminate|]. split; [auto|discriminate].
    + exfalso.
      pose proof (int_truediv_ge_one a b target ltac:(lia) Et) as Hge.
      destruct (search_loop_first _ target cs ss HM Ht Hge El)
        as (c & rest & Hc & _).
      subst cs. discriminate.
  - destruct (search_loop_spec _ target cs ss Ht El) as (Hf & Hg & _ & _).
    assert (Hm : md = fst (rank (single_digit_threshold cfg) cs ss))
      by (rewrite Hr; reflexivity).
    rewrite rank_fst in Hm.
    destruct (sort_by_err ss) as [|s0 srest] eqn:Es.
    { subst md. split; [discriminate|]. split; discriminate. }
    assert (Hs0 : nonneg (err s0) = true).
    { assert (Hin : In s0 ss).
      { apply (Permutation_in _ (sort_by_err_perm ss)).
        rewrite Es. left; reflexivity. }
      subst ss. apply filter_In in Hin. destruct Hin as [Hin _].
      rewrite Forall_forall in Hg.
      apply (generated_err_nonneg target), Hg, Hin. }
    destruct (float_lt (err s0) (single_digit_threshold cfg)) eqn:Elt;
      cbn [andb] in Hm.
    + destruct (negb _); subst md;
        (split; [discriminate|]; split; [discriminate|]);
        intros s Hs; inversion Hs; subst.
      apply (float_lt_le_one _ (single_digit_threshold cfg)); assumption.
    + subst md. split; [discriminate|]. split; discriminate.
Qed.

Lemma validated_query_witness :
  tag_of_mode ModeNone <> Some TagLimitLarge /\
  (tag_of_mode ModeNone = Some TagLimitSmall -> 16 < 9) /\
  (forall s, ModeNone = ModeCand s -> float_lt (err s) float_one = true).
Proof.
  apply (validated_query no_float_of_str (PyInt 0) PyNone
           (mkConfig 64 default_THRESHOLD
                     [ResetMaxDenominator; ResetThreshold])
           16 9 ModeNone top5_16_9);
    [reflexivity|lia|lia|vm_compute; reflexivity].
Defined.

(** * Further properties: whole-number ratios *)

(** ** Rounding an exact value *)

Lemma shr_1_double x :
  0 <= x ->
  shr_1 (Build_shr_record (2 * x) false false) = Build_shr_record x false false.
Proof. destruct x as [|p|p]; [reflexivity|reflexivity|lia]. Qed.

Lemma shr_iter_exact p : forall q,
  0 <= q ->
  iter_pos shr_1 p (Build_shr_record (q * 2 ^ Z.pos p) false false) =
  Build_shr_record q false false.
Proof.
  induction p as [p IH|p IH|]; intros q Hq; cbn [iter_pos].
  - assert (Hp : 0 < 2 ^ Z.pos p) by (apply Z.pow_pos_nonneg; lia).
    replace (q * 2 ^ Z.pos p~1) with (2 * ((q * 2 ^ Z.pos p) * 2 ^ Z.pos p))
      by (rewrite pow2_xI; ring).
    rewrite shr_1_double by nia.
    rewrite IH by nia. apply IH. assumption.
  - assert (Hp : 0 < 2 ^ Z.pos p) by (apply Z.pow_pos_nonneg; lia).
    replace (q * 2 ^ Z.pos p~0) with ((q * 2 ^ Z.pos p) * 2 ^ Z.pos p)
      by (rewrite pow2_xO; ring).
    rewrite IH by nia. apply IH. assumption.
  - replace (q * 2 ^ 1) with (2 * q) by lia. apply shr_1_double. assumption.
Qed.

Lemma Zdigits2_mul_pow2 q k :
  0 < q -> 0 <= k -> Zdigits2 (q * 2 ^ k) = Zdigits2 q + k.
Proof.
  intros Hq Hk.
  assert (Hp : 0 < 2 ^ k) by (apply Z.pow_pos_nonneg; lia).
  pose proof (Zdigits2_pos q Hq) as Hd.
  pose proof (Zdigits2_lt q ltac:(lia)) as Hlt.
  pose proof (Zdigits2_ge q Hq) as Hge.
  apply Z.le_antisymm.
  - apply Zdigits2_le_of_lt; [nia|lia|].
    rewrite Z.pow_add_r by lia. nia.
  - replace (Zdigits2 q + k) with (Zdigits2 q - 1 + k + 1) by lia.
    apply Zdigits2_ge_of_le; [lia|].
    rewrite Z.pow_add_r by lia. nia.
Qed.

Lemma shr_fexp_exact q k e n :
  0 < q -> 0 <= n <= k ->
  fexp prec emax (Zdigits2 q + k + e) - e = n ->
  shr_fexp prec emax (q * 2 ^ k) e loc_Exact =
  (Build_shr_record (q * 2 ^ (k - n)) false false, e + n).
Proof.
  intros Hq Hn En. unfold shr_fexp.
  rewrite Zdigits2_mul_pow2 by lia. rewrite En.
  unfold shr. cbn [shr_record_of_loc].
  destruct n as [|p|p]; [| |lia].
  - rewrite Z.sub_0_r, Z.add_0_r. reflexivity.
  - f_equal.
    replace (q * 2 ^ k) with ((q * 2 ^ (k - Z.pos p)) * 2 ^ Z.pos p).
    + apply shr_iter_exact.
      assert (0 < 2 ^ (k - Z.pos p)) by (apply Z.pow_pos_nonneg; lia). nia.
    + rewrite <- Z.mul_assoc, <- Z.pow_add_r by lia.
      f_equal. f_equal. lia.
Qed.

(** Rounding [q * 2^k * 2^e], given exactly, when its canonical exponent
    is [e + n] with [0 <= n <= k]: no bit is lost. *)
Lemma round_float_exact q k e n :
  0 < q -> 0 <= n <= k ->
  fexp prec emax (Zdigits2 q + k + e) - e = n ->
  e + n <= 971 ->
  round_float false (q * 2 ^ k) e loc_Exact =
  S754_finite false (Z.to_pos (q * 2 ^ (k - n))) (e + n).
Proof.
  intros Hq Hn En He. unfold round_float, binary_round_aux.
  rewrite (shr_fexp_exact q k e n Hq Hn En).
  cbn [shr_m loc_of_shr_record shr_r shr_s round_nearest_even].
  rewrite (shr_fexp_exact q (k - n) (e + n) 0 Hq ltac:(lia)).
  2:{ replace (Zdigits2 q + (k - n) + (e + n)) with (Zdigits2 q + k + e)
        by lia. lia. }
  cbn [shr_m]. rewrite Z.sub_0_r, Z.add_0_r.
  assert (Hp : 0 < q * 2 ^ (k - n)).
  { assert (0 < 2 ^ (k - n)) by (apply Z.pow_pos_nonneg; lia). nia. }
  destruct (q * 2 ^ (k - n)) as [|m|m] eqn:Em; try lia.
  change (emax - prec) with 971.
  destruct (Z.leb_spec (e + n) 971); [|lia].
  reflexivity.
Qed.

(** ** The quotient, the product and the rounding of a whole number *)

Lemma Zdigits2_mul_ge x y :
  0 < x -> 0 < y -> Zdigits2 x + Zdigits2 y - 1 <= Zdigits2 (x * y).
Proof.
  intros Hx Hy.
  pose proof (Zdigits2_pos x Hx). pose proof (Zdigits2_pos y Hy).
  pose proof (Zdigits2_ge x Hx) as Hgx. pose proof (Zdigits2_ge y Hy) as Hgy.
  replace (Zdigits2 x + Zdigits2 y - 1)
    with ((Zdigits2 x - 1) + (Zdigits2 y - 1) + 1) by lia.
  apply Zdigits2_ge_of_le; [lia|].
  rewrite Z.pow_add_r by lia.
  assert (0 < 2 ^ (Zdigits2 x - 1)) by (apply Z.pow_pos_nonneg; lia).
  assert (0 < 2 ^ (Zdigits2 y - 1)) by (apply Z.pow_pos_nonneg; lia).
  nia.
Qed.

Lemma Zdigits2_small q : 0 < q < 2 ^ 53 -> 1 <= Zdigits2 q <= 53.
Proof.
  intros Hq. split; [apply Zdigits2_pos; lia|].
  apply Zdigits2_le_of_lt; lia.
Qed.

(** [(q * b) / b] is [q], exactly. *)
Lemma int_truediv_whole q b :
  0 < b -> 0 < q < 2 ^ 53 ->
  int_truediv (q * b) b = Ok (float_of_small q).
Proof.
  intros Hb Hq.
  pose proof (Zdigits2_small q Hq) as Hdq.
  pose proof (Zdigits2_pos b Hb) as Hdb.
  pose proof (Zdigits2_mul_ge q b ltac:(lia) Hb) as Hlow.
  pose proof (Zdigits2_mul q b ltac:(lia) ltac:(lia)) as Hup.
  rewrite int_truediv_pos by nia.
  assert (He : div_exp (q * b) b = Zdigits2 (q * b) - Zdigits2 b - 53).
  { unfold div_exp. rewrite fexp_eq. lia. }
  unfold div_mant. rewrite He.
  set (k := - (Zdigits2 (q * b) - Zdigits2 b - 53)).
  assert (Hk : 0 <= k) by (unfold k; lia).
  rewrite Z.shiftl_mul_pow2 by assumption.
  replace (q * b * 2 ^ k) with (q * 2 ^ k * b) by ring.
  rewrite Z.mod_mul by lia. rewrite Z.div_mul by lia.
  assert (Hloc : new_location b 0 = loc_Exact).
  { unfold new_location, new_location_even, new_location_odd.
    destruct (Z.even b); reflexivity. }
  rewrite Hloc.
  rewrite (round_float_exact q k (Zdigits2 (q * b) - Zdigits2 b - 53)
             (Zdigits2 q - (Zdigits2 (q * b) - Zdigits2 b)));
    [|lia|unfold k; lia|unfold k; rewrite fexp_eq; lia|lia].
  unfold float_of_small.
  replace (k - (Zdigits2 q - (Zdigits2 (q * b) - Zdigits2 b)))
    with (53 - Zdigits2 q) by (unfold k; lia).
  replace (Zdigits2 (q * b) - Zdigits2 b - 53 +
           (Zdigits2 q - (Zdigits2 (q * b) - Zdigits2 b)))
    with (Zdigits2 q - 53) by lia.
  reflexivity.
Qed.

Lemma float_of_small_mantissa q :
  0 < q < 2 ^ 53 ->
  Z.pos (Z.to_pos (q * 2 ^ (53 - Zdigits2 q))) = q * 2 ^ (53 - Zdigits2 q).
Proof.
  intros Hq. pose proof (Zdigits2_small q Hq).
  apply Z2Pos.id.
  assert (0 < 2 ^ (53 - Zdigits2 q)) by (apply Z.pow_pos_nonneg; lia). nia.
Qed.

(** [float(q) * 1] is [float(q)]. *)
Lemma float_mul_int_small_one q :
  0 < q < 2 ^ 53 ->
  float_mul_int (float_of_small q) 1 = Ok (float_of_small q).
Proof.
  intros Hq. pose proof (Zdigits2_small q Hq) as Hdq.
  unfold float_mul_int. rewrite float_of_int_one. cbn [bind].
  unfold float_of_small at 1. unfold SFmul. cbn [xorb].
  fold (round_float false
          (Z.pos (Z.to_pos (q * 2 ^ (53 - Zdigits2 q)) * 4503599627370496))
          (Zdigits2 q - 53 + -52) loc_Exact).
  rewrite Pos2Z.inj_mul, float_of_small_mantissa by assumption.
  change (Z.pos 4503599627370496) with (2 ^ 52).
  rewrite <- Z.mul_assoc, <- Z.pow_add_r by lia.
  rewrite (round_float_exact q (53 - Zdigits2 q + 52)
             (Zdigits2 q - 53 + -52) 52);
    [|lia|lia|rewrite fexp_eq; lia|lia].
  unfold float_of_small. f_equal. f_equal.
  - f_equal. f_equal. f_equal. lia.
  - lia.
Qed.

(** [round(float(q))] is [q]. *)
Lemma py_round_small q :
  0 < q < 2 ^ 53 -> py_round (float_of_small q) = Ok q.
Proof.
  intros Hq. pose proof (Zdigits2_small q Hq) as Hdq.
  unfold float_of_small. cbn [py_round].
  rewrite float_of_small_mantissa by assumption. f_equal.
  destruct (Z.leb_spec 0 (Zdigits2 q - 53)) as [He|He].
  - replace (Zdigits2 q - 53) with 0 by lia.
    replace (53 - Zdigits2 q) with 0 by lia.
    rewrite Z.shiftl_0_r. change (2 ^ 0) with 1. lia.
  - unfold round_half_even.
    replace (- (Zdigits2 q - 53)) with (53 - Zdigits2 q) by lia.
    assert (Hp : 0 < 2 ^ (53 - Zdigits2 q))
      by (apply Z.pow_pos_nonneg; lia).
    assert (Hh : 0 < 2 ^ (53 - Zdigits2 q - 1))
      by (apply Z.pow_pos_nonneg; lia).
    rewrite Z.mod_mul, Z.div_mul by lia.
    destruct (Z.ltb_spec 0 (2 ^ (53 - Zdigits2 q - 1))); [reflexivity|lia].
Qed.

(** [x - x] is [+0.0]. *)
Lemma float_sub_diag m e :
  float_sub (S754_finite false m e) (S754_finite false m e) =
  S754_zero false.
Proof.
  unfold float_sub, SFsub. cbn [cond_Zopp]. rewrite Z.sub_diag. reflexivity.
Qed.

(** ** The search for a whole number *)

(** The first denominator, 1, records the whole number itself, with the
    error [+0.0]. *)
Lemma search_step_whole q cs ss :
  0 < q < 2 ^ 53 ->
  search_step (float_of_small q) (cs, ss) 1 =
  Ok (cs ++ [mkCand q 1 (S754_zero false)],
      if single_digit (mkCand q 1 (S754_zero false))
      then ss ++ [mkCand q 1 (S754_zero false)] else ss).
Proof.
  intros Hq. unfold search_step.
  rewrite float_mul_int_small_one by assumption. cbn [bind].
  rewrite py_round_small by assumption. cbn [bind].
  destruct (Z.eqb_spec q 0); [lia|].
  rewrite Z.gcd_1_r. cbn [Z.eqb Pos.eqb negb].
  replace q with (q * 1) at 1 by lia.
  rewrite int_truediv_whole by lia. cbn [bind].
  assert (Hd : float_sub (float_of_small q) (float_of_small q) =
               S754_zero false)
    by (unfold float_of_small; apply float_sub_diag).
  rewrite Hd. reflexivity.
Qed.

Lemma insert_by_err_zero c l :
  err c = S754_zero false -> Forall err_nonneg l ->
  insert_by_err c l = c :: l.
Proof.
  intros Hc Hl. destruct l as [|y l']; [reflexivity|].
  cbn [insert_by_err]. rewrite Hc.
  inversion Hl as [|? ? Hy _]; subst.
  rewrite (float_lt_zero (err y) false Hy). reflexivity.
Qed.

(** A first element with error [+0.0] stays first: the sort is stable. *)
Lemma sort_by_err_zero_head c rest :
  err c = S754_zero false -> Forall err_nonneg rest ->
  sort_by_err (c :: rest) = c :: sort_by_err rest.
Proof.
  intros Hc Hrest. unfold sort_by_err. cbn [fold_right].
  apply insert_by_err_zero; [assumption|].
  rewrite Forall_forall in *. intros x Hx. apply Hrest.
  apply (Permutation_in _ (sort_by_err_perm rest)). exact Hx.
Qed.

Lemma search_loop_whole M q cs ss :
  1 <= M -> 0 < q < 2 ^ 53 ->
  search_loop M (float_of_small q) = Ok (cs, ss) ->
  exists rest,
    cs = mkCand q 1 (S754_zero false) :: rest /\
    ss = filter single_digit cs /\
    Forall err_nonneg rest.
Proof.
  intros HM Hq El.
  assert (Ht : finite_pos (float_of_small q) = true) by reflexivity.
  destruct (search_loop_spec M _ cs ss Ht El) as (Hss & Hg & _ & _).
  unfold search_loop in El.
  rewrite py_range_cons in El by lia. cbn [search_from] in El.
  rewrite search_step_whole in El by assumption. cbn [bind app] in El.
  apply search_from_spec in El; auto.
  - destruct El as (new & Hcs & _).
    exists new. split; [exact Hcs|]. split; [assumption|].
    rewrite Hcs in Hg. inversion Hg; subst.
    eapply Forall_generated_nonneg; eassumption.
  - rewrite Forall_forall. intros d Hd. apply py_range_spec in Hd. lia.
  - apply py_range_sorted.
Qed.

(** X13. When [b] divides [a] and the quotient [q] is below [2^53], the first
    candidate returned is [q:1] with the error [+0.0], which is printed as
    [=0]; the mode is never ["limit_small"] or ["limit_large"], and for
    [q <= 9] it is [None]: an exact single-digit ratio is the global best,
    so nothing is highlighted. *)
Theorem whole_number_ratio M T q b md l :
  1 <= M -> 0 < b -> 0 < q < 2 ^ 53 ->
  approximate_top5 M T (q * b) b = Ok (md, l) ->
  (exists rest, l = mkCand q 1 (S754_zero false) :: rest) /\
  (forall c rest, l = c :: rest -> format_error (err c) = "=0"%string) /\
  (forall s, md <> ModeStr s) /\
  (q <= 9 -> md = ModeNone).
Proof.
  intros HM Hb Hq H.
  assert (Ha : 0 < q * b) by nia.
  destruct (approximate_top5_inv _ _ _ _ _ _ Ha Hb H)
    as (target & cs & ss & Et & Ht & El & Hcase).
  rewrite int_truediv_whole in Et by assumption.
  inversion Et; subst target; clear Et.
  destruct (search_loop_whole M q cs ss HM Hq El)
    as (rest & Hcs & Hss & Hrest).
  destruct Hcase as [[Hnil _]|[_ Hr]]; [subst cs; discriminate|].
  assert (Hsort : sort_by_err cs =
                  mkCand q 1 (S754_zero false) :: sort_by_err rest).
  { rewrite Hcs. apply sort_by_err_zero_head; [reflexivity|assumption]. }
  assert (Hl : l = snd (rank T cs ss)) by (rewrite Hr; reflexivity).
  rewrite rank_snd, Hsort in Hl. cbn [firstn] in Hl.
  assert (Hm : md = fst (rank T cs ss)) by (rewrite Hr; reflexivity).
  rewrite rank_fst, Hsort in Hm.
  split; [eauto|]. split; [|split].
  - intros c rest' E. rewrite Hl in E. inversion E; subst c. reflexivity.
  - intros s. subst md.
    destruct (sort_by_err ss) as [|s0 ?]; [discriminate|].
    destruct (_ && _); discriminate.
  - intros Hq9.
    assert (Hsd : single_digit (mkCand q 1 (S754_zero false)) = true).
    { unfold single_digit. cbn [num den].
      destruct (Z.leb_spec 1 q); [|lia].
      destruct (Z.leb_spec q 9); [|lia]. reflexivity. }
    assert (Hss' : sort_by_err ss =
                   mkCand q 1 (S754_zero false) ::
                   sort_by_err (filter single_digit rest)).
    { rewrite Hss, Hcs. cbn [filter]. rewrite Hsd.
      apply sort_by_err_zero_head; [reflexivity|].
      apply Forall_filter. assumption. }
    rewrite Hss' in Hm. unfold same_pair in Hm. cbn [num den] in Hm.
    rewrite !Z.eqb_refl in Hm. cbn [andb negb] in Hm.
    rewrite andb_false_r in Hm. assumption.
Qed.

Lemma whole_number_ratio_witness :
  (exists rest, top5_6_2 = mkCand 3 1 (S754_zero false) :: rest) /\
  (forall c rest, top5_6_2 = c :: rest ->
                  format_error (err c) = "=0"%string) /\
  (forall s, ModeNone <> ModeStr s) /\
  (3 <= 9 -> ModeNone = ModeNone).
Proof.
  apply (whole_number_ratio 64 default_THRESHOLD 3 2 ModeNone top5_6_2);
    [lia|lia|lia|vm_compute; reflexivity].
Defined.
